(** * cne: container lifecycle on top of containerd

    A shallow embedding of the parts of [runtime/containerd/containerd.go]
    and [cli/common.go] that carry the identity scheme, the container
    lifecycle (get / create / commit / delete / exec), the snapshot
    enumeration and the progress display state.

    Conventions
    - a Go [[16]byte] is a [list byte]; values of that type have length 16;
    - a Go [string] is a [string] (a sequence of 8-bit characters);
    - a Go [int] index is a [Z];
    - a call that can return an error or panic returns an [outcome];
    - the containerd daemon is a store ([Backend]) that answers each request
      from its content; failures of the connection itself are not modelled. *)

From Stdlib Require Import ZArith NArith Ascii String List Lia Bool DecimalString.
From Stdlib Require DecimalPos DecimalN.
From Stdlib.Strings Require Import Byte.
From stdpp Require Import gmap strings list fin_maps.

Open Scope string_scope.

(** ** Go primitives *)

Module Go.

(** [strings.Index(s, substr)]: byte offset of the first occurrence, -1 if none. *)
Fixpoint Index (s substr : string) : Z :=
  if String.prefix substr s then 0%Z
  else match s with
       | EmptyString => (-1)%Z
       | String _ s' =>
           let r := Index s' substr in
           if (r <? 0)%Z then (-1)%Z else (r + 1)%Z
       end.

Fixpoint take (n : nat) (s : string) : string :=
  match n, s with
  | S n', String c s' => String c (take n' s')
  | _, _ => EmptyString
  end.

Fixpoint drop (n : nat) (s : string) : string :=
  match n, s with
  | S n', String _ s' => drop n' s'
  | _, _ => s
  end.

Definition len (s : string) : Z := Z.of_nat (String.length s).

(** [s[:hi]]: out of range indices panic, which is [None] here. *)
Definition slice_to (s : string) (hi : Z) : option string :=
  if ((0 <=? hi) && (hi <=? len s))%Z then Some (take (Z.to_nat hi) s) else None.

(** [s[lo:]] *)
Definition slice_from (s : string) (lo : Z) : option string :=
  if ((0 <=? lo) && (lo <=? len s))%Z then Some (drop (Z.to_nat lo) s) else None.

(** [copy(dst[:], src)] into a zeroed [[16]byte]. *)
Definition copy16 (src : list byte) : list byte :=
  (firstn 16 src ++ repeat x00 (16 - length src))%list.

End Go.

(** ** encoding/hex *)

Module hex.

Inductive Error :=
| InvalidByteError (c : ascii)
| ErrLength.

Inductive result (A : Type) :=
| Decoded (a : A)
| Invalid (e : Error).
Arguments Decoded {A} a.
Arguments Invalid {A} e.

Definition hextable : string := "0123456789abcdef".

Definition digit (n : N) : ascii :=
  match String.get (N.to_nat n) hextable with
  | Some c => c
  | None => "0"%char
  end.

(** [dst[i*2] = hextable[v>>4]; dst[i*2+1] = hextable[v&0x0f]] *)
Fixpoint EncodeToString (src : list byte) : string :=
  match src with
  | [] => EmptyString
  | v :: rest =>
      String (digit (N.shiftr (Byte.to_N v) 4))
        (String (digit (N.land (Byte.to_N v) 15)) (EncodeToString rest))
  end.

Definition fromHexChar (c : ascii) : option N :=
  let n := N_of_ascii c in
  if ((48 <=? n) && (n <=? 57))%N then Some (n - 48)%N
  else if ((97 <=? n) && (n <=? 102))%N then Some (n - 97 + 10)%N
  else if ((65 <=? n) && (n <=? 70))%N then Some (n - 65 + 10)%N
  else None.

Definition pack (a b : N) : byte :=
  match Byte.of_N (N.lor (N.shiftl a 4) b) with
  | Some v => v
  | None => x00
  end.

(** [hex.DecodeString]: pairs of digits; a dangling last character is an
    invalid byte when it is no digit and a length error otherwise. *)
Fixpoint DecodeString (s : string) : result (list byte) :=
  match s with
  | EmptyString => Decoded []
  | String a EmptyString =>
      match fromHexChar a with
      | None => Invalid (InvalidByteError a)
      | Some _ => Invalid ErrLength
      end
  | String a (String b rest) =>
      match fromHexChar a with
      | None => Invalid (InvalidByteError a)
      | Some hi =>
          match fromHexChar b with
          | None => Invalid (InvalidByteError b)
          | Some lo =>
              match DecodeString rest with
              | Decoded bs => Decoded (pack hi lo :: bs)
              | Invalid e => Invalid e
              end
          end
      end
  end.

End hex.

(** ** errdefs and call outcomes *)

(** Error classes of the containerd client ([ctrderr]). *)
Inductive CtrdError :=
| CtrdNotFound
| CtrdAlreadyExists
| CtrdFailedPrecondition
| CtrdUnknown.

Definition IsNotFound (e : CtrdError) : bool :=
  match e with CtrdNotFound => true | _ => false end.

(** Modelled from the spec: the package [errdefs] (its constructors are used
    by the code but the package is not part of the sources at hand).  The
    taxonomy is NotFound, AlreadyExists, InvalidArgument, NotImplemented and
    a generic runtime error; [ErrBackend] is an error of the containerd
    client handed up as it is. *)
Inductive Error :=
| NotFound (resource name : string)
| AlreadyExists (resource name : string)
| InvalidArgument (msg : string)
| NotImplemented
| RuntimeError (msg : string)
| ErrBackend (e : CtrdError).

(** [errors.Is(err, errdefs.ErrNotFound)] *)
Definition IsErrNotFound (e : Error) : bool :=
  match e with NotFound _ _ => true | _ => false end.

Inductive outcome (A : Type) :=
| Ret (a : A)
| Fail (e : Error)
| Panic.
Arguments Ret {A} a.
Arguments Fail {A} e.
Arguments Panic {A}.

(** ** Identity scheme *)

Definition Bytes16 := list byte.

(** splitCtrdID splits the containerd ID into domain and ID *)
Definition splitCtrdID (ctrdID : string) : outcome (Bytes16 * Bytes16) :=
  let idx := Go.Index ctrdID "-" in
  match Go.slice_to ctrdID idx with
  | None => Panic
  | Some lhs =>
      match hex.DecodeString lhs with
      | hex.Invalid _ =>
          Fail (InvalidArgument ("container ID is invalid: '" ++ ctrdID ++ "'"))
      | hex.Decoded s =>
          let dom := Go.copy16 s in
          match Go.slice_from ctrdID (idx + 1) with
          | None => Panic
          | Some rhs =>
              match hex.DecodeString rhs with
              | hex.Invalid _ =>
                  Fail (InvalidArgument ("container ID is invalid: '" ++ ctrdID ++ "'"))
              | hex.Decoded s' => Ret (dom, Go.copy16 s')
              end
          end
      end
  end.

(** composeCtrdID composes the containerd ID from the domain and container ID *)
Definition composeCtrdID (domain id : Bytes16) : string :=
  hex.EncodeToString domain ++ "-" ++ hex.EncodeToString id.


#[global] Instance byte_eq_decision : EqDecision byte := Byte.byte_eq_dec.

(** ** The containerd daemon *)

(** [containerd.ProcessStatus] *)
Inductive ProcessStatus :=
| Running
| Created
| Stopped
| Paused
| Pausing
| Unknown.

(** [status == containerd.Stopped] *)
Definition isStopped (s : ProcessStatus) : bool :=
  match s with Stopped => true | _ => false end.

(** [ocispec.ImageConfig], the fields the code reads. *)
Record ImageConfig := {
  Entrypoint : list string;
  Cmd : list string;
  WorkingDir : string
}.

(** [runspecs.Process], the fields the code writes. *)
Record Process := {
  Args : list string;
  Cwd : string
}.

(** [runspecs.Spec]: [Process] and [Linux] are pointers, [None] is nil. *)
Record Spec := {
  SpecProcess : option Process;
  SpecLinux : option unit
}.

(** Modelled from the spec: the type [image] of the package (its file is not
    part of the sources at hand).  An image is immutable once pulled and
    carries its name and its decoded runtime configuration. *)
Record image := {
  imgName : string;
  imgConfig : ImageConfig
}.

(** [snapshots.Info], the fields the code reads. *)
Record SnapInfo := {
  Name : string;
  Parent : string
}.

(** A container object of the daemon, as [Create] makes them: labels, image
    and spec.  Such objects carry no snapshot key, so the
    [WithSnapshotCleanup] option of a delete has nothing to remove. *)
Record CtrdContainer := {
  ctrLabels : gmap string string;
  ctrImage : image;
  ctrSpec : Spec
}.

(** The daemon's content.  [tasks] holds the task of a container under the
    container's ID; [snapshots] is the snapshot store in the order its
    [Walk] visits it; [active] records, per composite key, the name of the
    active snapshot; [startError] is what starting a process with a given
    spec reports ([None]: it started). *)
Record Backend := {
  containers : gmap string CtrdContainer;
  tasks : gmap string ProcessStatus;
  snapshots : list SnapInfo;
  active : gmap string string;
  startError : Process -> option CtrdError
}.

Definition set_containers (st : Backend) (m : gmap string CtrdContainer) : Backend :=
  {| containers := m; tasks := tasks st; snapshots := snapshots st;
     active := active st; startError := startError st |}.

Definition set_tasks (st : Backend) (m : gmap string ProcessStatus) : Backend :=
  {| containers := containers st; tasks := m; snapshots := snapshots st;
     active := active st; startError := startError st |}.

Definition set_snapshots (st : Backend) (l : list SnapInfo) (a : gmap string string) : Backend :=
  {| containers := containers st; tasks := tasks st; snapshots := l;
     active := a; startError := startError st |}.

(** The containerd client.  A [containerd.Container] or [containerd.Task]
    value is a handle holding the container's ID. *)
Module ctrd.

Definition LoadContainer (st : Backend) (id : string) : CtrdError + string :=
  match containers st !! id with
  | Some _ => inr id
  | None => inl CtrdNotFound
  end.

Definition Labels (st : Backend) (c : string) : CtrdError + gmap string string :=
  match containers st !! c with
  | Some r => inr (ctrLabels r)
  | None => inl CtrdNotFound
  end.

(** [SetLabels] updates the labels passed in and leaves the others alone. *)
Definition SetLabels (st : Backend) (c : string) (labels : gmap string string)
  : option CtrdError * Backend :=
  match containers st !! c with
  | Some r =>
      (None, set_containers st
               (<[c := {| ctrLabels := labels ∪ ctrLabels r;
                          ctrImage := ctrImage r; ctrSpec := ctrSpec r |}]>
                  (containers st)))
  | None => (Some CtrdNotFound, st)
  end.

Definition Image (st : Backend) (c : string) : CtrdError + image :=
  match containers st !! c with
  | Some r => inr (ctrImage r)
  | None => inl CtrdNotFound
  end.

Definition GetSpec (st : Backend) (c : string) : CtrdError + Spec :=
  match containers st !! c with
  | Some r => inr (ctrSpec r)
  | None => inl CtrdNotFound
  end.

Definition NewContainer (st : Backend) (id : string) (img : image) (spec : Spec)
    (labels : gmap string string) : CtrdError + (string * Backend) :=
  match containers st !! id with
  | Some _ => inl CtrdAlreadyExists
  | None =>
      inr (id, set_containers st
                 (<[id := {| ctrLabels := labels; ctrImage := img; ctrSpec := spec |}]>
                    (containers st)))
  end.

(** Deleting a container that still has a task is refused; deleting one that
    is not in the store reports not-found. *)
Definition ContainerDelete (st : Backend) (c : string) : option CtrdError * Backend :=
  match tasks st !! c with
  | Some _ => (Some CtrdFailedPrecondition, st)
  | None =>
      match containers st !! c with
      | None => (Some CtrdNotFound, st)
      | Some _ => (None, set_containers st (delete c (containers st)))
      end
  end.

Definition Task (st : Backend) (c : string) : CtrdError + string :=
  match tasks st !! c with
  | Some _ => inr c
  | None => inl CtrdNotFound
  end.

Definition NewTask (st : Backend) (c : string) (mounts : string)
  : CtrdError + (string * Backend) :=
  match containers st !! c with
  | None => inl CtrdNotFound
  | Some _ =>
      match tasks st !! c with
      | Some _ => inl CtrdAlreadyExists
      | None => inr (c, set_tasks st (<[c := Created]> (tasks st)))
      end
  end.

Definition Status (st : Backend) (t : string) : CtrdError + ProcessStatus :=
  match tasks st !! t with
  | Some s => inr s
  | None => inl CtrdNotFound
  end.

(** [Wait] hands out the exit channel of the task. *)
Definition Wait (st : Backend) (t : string) : CtrdError + unit :=
  match tasks st !! t with
  | Some _ => inr tt
  | None => inl CtrdNotFound
  end.

(** [Kill] with SIGKILL followed by the receive on the exit channel: the
    task has stopped. *)
Definition Kill (st : Backend) (t : string) : option CtrdError * Backend :=
  match tasks st !! t with
  | Some _ => (None, set_tasks st (<[t := Stopped]> (tasks st)))
  | None => (Some CtrdNotFound, st)
  end.

(** A task is deleted only when it has stopped. *)
Definition TaskDelete (st : Backend) (t : string) : option CtrdError * Backend :=
  match tasks st !! t with
  | None => (Some CtrdNotFound, st)
  | Some s =>
      match s with
      | Stopped | Unknown => (None, set_tasks st (delete t (tasks st)))
      | _ => (Some CtrdFailedPrecondition, st)
      end
  end.

(** [Task.Exec] registers a process with the task. *)
Definition Exec (st : Backend) (t : string) (execID : string) (p : Process)
  : CtrdError + string :=
  match tasks st !! t with
  | Some _ => inr execID
  | None => inl CtrdNotFound
  end.

(** [Process.Start] *)
Definition Start (st : Backend) (p : Process) : option CtrdError :=
  startError st p.

End ctrd.

(** ** strconv *)

Module strconv.

(** [strconv.FormatUint(n, 10)] *)
Definition FormatUint (n : N) : string :=
  DecimalString.NilEmpty.string_of_uint (N.to_uint n).

Definition digit (c : ascii) : option N :=
  let n := N_of_ascii c in
  if ((48 <=? n) && (n <=? 57))%N then Some (n - 48)%N else None.

Fixpoint digits (s : string) (acc : N) : option N :=
  match s with
  | EmptyString => Some acc
  | String c s' =>
      match digit c with
      | Some d => digits s' (acc * 10 + d)%N
      | None => None
      end
  end.

(** [strconv.ParseUint(s, 10, 32)]: a non-empty run of decimal digits whose
    value fits 32 bits. *)
Definition ParseUint32 (s : string) : option N :=
  match s with
  | EmptyString => None
  | _ =>
      match digits s 0 with
      | Some n => if (n <? 2 ^ 32)%N then Some n else None
      | None => None
      end
  end.

End strconv.

(** ** Parts of the package that live in other files *)

(** Modelled from the spec: the label names [containerdGenerationLabel] and
    [containerdUIDLabel] (constants of the package declared outside the
    sources at hand).  Generation and uid are stored as two key/value labels
    on the container object. *)
Definition containerdGenerationLabel : string := "CNE-GEN".
Definition containerdUIDLabel : string := "CNE-UID".

(** Modelled from the spec: [image.Config], the decoded configuration of an
    image. *)
Definition Config (img : image) : outcome ImageConfig := Ret (imgConfig img).

Definition findSnapshot (l : list SnapInfo) (name : string) : option SnapInfo :=
  List.find (fun i => String.eqb (Name i) name) l.

(** Modelled from the spec: [getActiveSnapshot(domain, id)], the current
    leaf snapshot for the key, or NotFound. *)
Definition getActiveSnapshot (st : Backend) (domain id : Bytes16) : outcome SnapInfo :=
  match active st !! composeCtrdID domain id with
  | None => Fail (NotFound "snapshot" (composeCtrdID domain id))
  | Some name =>
      match findSnapshot (snapshots st) name with
      | Some info => Ret info
      | None => Fail (NotFound "snapshot" (composeCtrdID domain id))
      end
  end.

(** Modelled from the spec: [getActiveSnapMounts(domain, id)], the mounts of
    the active snapshot; a mount set is named after its snapshot. *)
Definition getActiveSnapMounts (st : Backend) (domain id : Bytes16) : outcome string :=
  match getActiveSnapshot st domain id with
  | Ret info => Ret (Name info)
  | Fail e => Fail e
  | Panic => Panic
  end.

Fixpoint snapshotChain (fuel : nat) (l : list SnapInfo) (name : string) : list string :=
  match fuel with
  | O => []
  | S fuel' =>
      match findSnapshot l name with
      | None => []
      | Some info =>
          name :: (if String.eqb (Parent info) "" then []
                   else snapshotChain fuel' l (Parent info))
      end
  end.

(** Modelled from the spec: [deleteContainerSnapshots(domain, id)] removes
    the whole snapshot chain for a key. *)
Definition deleteContainerSnapshots (st : Backend) (domain id : Bytes16) : Backend :=
  match active st !! composeCtrdID domain id with
  | None => st
  | Some name =>
      let chain := snapshotChain (length (snapshots st)) (snapshots st) name in
      set_snapshots st
        (List.filter (fun i => negb (bool_decide (Name i ∈ chain))) (snapshots st))
        (delete (composeCtrdID domain id) (active st))
  end.

(** ** Containers *)

(** The in-memory [container]; [c_ctrdContainer] is the handle of the
    daemon's object, [None] is nil. *)
Record container := {
  c_domain : Bytes16;
  c_id : Bytes16;
  c_generation : Bytes16;
  c_uid : N;
  c_spec : Spec;
  c_image : image;
  c_ctrdContainer : option string
}.

Definition set_ctrdContainer (ctr : container) (h : option string) : container :=
  {| c_domain := c_domain ctr; c_id := c_id ctr; c_generation := c_generation ctr;
     c_uid := c_uid ctr; c_spec := c_spec ctr; c_image := c_image ctr;
     c_ctrdContainer := h |}.

Definition set_spec (ctr : container) (s : Spec) : container :=
  {| c_domain := c_domain ctr; c_id := c_id ctr; c_generation := c_generation ctr;
     c_uid := c_uid ctr; c_spec := s; c_image := c_image ctr;
     c_ctrdContainer := c_ctrdContainer ctr |}.

(** [labels[key]] on a Go map: the empty string when the key is absent. *)
Definition label (labels : gmap string string) (key : string) : string :=
  default EmptyString (labels !! key).

(** getGeneration returns the generation from a containerD Container. *)
Definition getGeneration (st : Backend) (ctrdCtr : string) : outcome Bytes16 :=
  match ctrd.Labels st ctrdCtr with
  | inl _ => Fail (RuntimeError "failed to get generation")
  | inr labels =>
      let val := label labels containerdGenerationLabel in
      match hex.DecodeString val with
      | hex.Invalid _ => Fail (RuntimeError ("failed to decode generation '" ++ val ++ "'"))
      | hex.Decoded str => Ret (Go.copy16 str)
      end
  end.

Definition getUID (st : Backend) (ctrdCtr : string) : outcome N :=
  match ctrd.Labels st ctrdCtr with
  | inl _ => Fail (RuntimeError "failed to get uid")
  | inr labels =>
      let val := label labels containerdUIDLabel in
      match strconv.ParseUint32 val with
      | None => Fail (RuntimeError ("invalid uid label: '" ++ val ++ "'"))
      | Some uid => Ret uid
      end
  end.

(** newContainer defines a new container without creating it. *)
Definition newContainer (ctrdCtr : string) (domain id generation : Bytes16)
    (uid : N) (img : image) (spec : Spec) : container :=
  {| c_domain := domain; c_id := id; c_generation := generation; c_uid := uid;
     c_spec := spec; c_image := img; c_ctrdContainer := Some ctrdCtr |}.

Definition deleteCtrdTask (st : Backend) (ctrdCtr : option string)
  : outcome unit * Backend :=
  match ctrdCtr with
  | None => (Panic, st)
  | Some c =>
      match ctrd.Task st c with
      | inl e =>
          if IsNotFound e then (Ret tt, st)
          else (Fail (RuntimeError "failed to get container task"), st)
      | inr ctrdTask =>
          match ctrd.Status st ctrdTask with
          | inl _ => (Fail (RuntimeError "failed to get status for task"), st)
          | inr stat =>
              let stopped :=
                if negb (isStopped stat) then
                  match ctrd.Wait st ctrdTask with
                  | inl _ => (Fail (RuntimeError "failed to wait for task"), st)
                  | inr _ =>
                      match ctrd.Kill st ctrdTask with
                      | (Some _, st1) => (Fail (RuntimeError "failed to kill task"), st1)
                      | (None, st1) => (Ret tt, st1)
                      end
                  end
                else (Ret tt, st) in
              match stopped with
              | (Ret _, st1) =>
                  match ctrd.TaskDelete st1 ctrdTask with
                  | (Some e, st2) =>
                      if negb (IsNotFound e)
                      then (Fail (RuntimeError "failed to delete task"), st2)
                      else (Ret tt, st2)
                  | (None, st2) => (Ret tt, st2)
                  end
              | other => other
              end
          end
      end
  end.

Definition deleteCtrdContainer (st : Backend) (ctrdCtr : option string)
    (domain id : Bytes16) (purge : bool) : outcome unit * Backend :=
  let '(r, st1) := deleteCtrdTask st ctrdCtr in
  let rest :=
    match ctrdCtr with
    | None => (Panic, st1)
    | Some c =>
        match ctrd.ContainerDelete st1 c with
        | (Some e, st2) => (Fail (ErrBackend e), st2)
        | (None, st2) =>
            (Ret tt, if purge then deleteContainerSnapshots st2 domain id else st2)
        end
    end in
  match r with
  | Panic => (Panic, st1)
  | Fail e => if negb (IsErrNotFound e) then (Fail e, st1) else rest
  | Ret _ => rest
  end.

(** getContainer looks up the container by domain, id, and generation. It
    returns not-found error if the container doesn't exist.  A not-found
    error will also be returned if no valid active snapshot exists and the
    container will be deleted. *)
Definition getContainer (st : Backend) (domain id generation : Bytes16)
  : outcome container * Backend :=
  let ctrdID := composeCtrdID domain id in
  match ctrd.LoadContainer st ctrdID with
  | inl e =>
      if IsNotFound e then (Fail (NotFound "container" ctrdID), st)
      else (Fail (RuntimeError "failed to get container"), st)
  | inr ctrdCtr =>
      match getGeneration st ctrdCtr with
      | Panic => (Panic, st)
      | Fail e => (Fail e, st)
      | Ret ctrdGen =>
          if decide (ctrdGen ≠ generation) then (Fail (NotFound "container" ctrdID), st)
          else
            match getUID st ctrdCtr with
            | Panic => (Panic, st)
            | Fail e => (Fail e, st)
            | Ret uid =>
                match getActiveSnapshot st domain id with
                | Panic => (Panic, st)
                | Fail e =>
                    if IsErrNotFound e then
                      let '(_, st1) :=
                        deleteCtrdContainer st (Some ctrdCtr) domain id false in
                      (Fail (NotFound "container" ctrdID), st1)
                    else (Fail e, st)
                | Ret _ =>
                    match ctrd.Image st ctrdCtr with
                    | inl _ => (Fail (RuntimeError "failed to get image"), st)
                    | inr img =>
                        match ctrd.GetSpec st ctrdCtr with
                        | inl _ => (Fail (RuntimeError "failed to get image spec"), st)
                        | inr spec =>
                            (Ret (newContainer ctrdCtr domain id generation uid img spec), st)
                        end
                    end
                end
            end
      end
  end.

(** createTask creates a new task for the active snapshot *)
Definition createTask (st : Backend) (ctr : container)
  : outcome string * container * Backend :=
  match getActiveSnapMounts st (c_domain ctr) (c_id ctr) with
  | Panic => (Panic, ctr, st)
  | Fail e => (Fail e, ctr, st)
  | Ret mounts =>
      match c_ctrdContainer ctr with
      | None => (Panic, ctr, st)
      | Some c =>
          match ctrd.NewTask st c mounts with
          | inl _ =>
              let '(_, st1) :=
                deleteCtrdContainer st (Some c) (c_domain ctr) (c_id ctr) false in
              (Fail (RuntimeError "failed to create container task"),
               set_ctrdContainer ctr None, st1)
          | inr (ctrdTask, st1) => (Ret ctrdTask, ctr, st1)
          end
      end
  end.

Definition Generation (ctr : container) : Bytes16 := c_generation ctr.

Definition UID (ctr : container) : N := c_uid ctr.

(** The completion of an incomplete spec shared by [Create] and
    [UpdateSpec]: a nil [Process] is allocated, and under a non-nil [Linux]
    the arguments and the working directory come from the image. *)
Definition completeProcess (spec : Spec) (config : ImageConfig) : Process :=
  let p := match SpecProcess spec with
           | Some p => p
           | None => {| Args := []; Cwd := EmptyString |}
           end in
  match SpecLinux spec with
  | Some _ =>
      {| Args := (Entrypoint config ++ Cmd config)%list;
         Cwd := if String.eqb (WorkingDir config) "" then "/" else WorkingDir config |}
  | None => p
  end.

(** [spec := ctr.spec] copies the struct and shares the [Process] it points
    to: what the completion writes through a non-nil pointer is seen in
    [ctr.spec] as well. *)
Definition aliasedSpec (spec : Spec) (config : ImageConfig) : Spec :=
  match SpecProcess spec with
  | Some _ => {| SpecProcess := Some (completeProcess spec config);
                 SpecLinux := SpecLinux spec |}
  | None => spec
  end.

Definition Create (st : Backend) (ctr : container)
  : outcome unit * container * Backend :=
  let ctrdID := composeCtrdID (c_domain ctr) (c_id ctr) in
  let gen := hex.EncodeToString (c_generation ctr) in
  (* if a container with a different generation exists, delete that container *)
  let existing :=
    match ctrd.LoadContainer st ctrdID with
    | inl e => if negb (IsNotFound e) then (Fail (ErrBackend e), ctr, st)
               else (Ret tt, ctr, st)
    | inr ctrdCtr =>
        let ctr1 := set_ctrdContainer ctr (Some ctrdCtr) in
        match ctrd.Labels st ctrdCtr with
        | inl e => (Fail (ErrBackend e), ctr1, st)
        | inr labels =>
            let ctrdGen := label labels containerdGenerationLabel in
            if String.eqb ctrdGen gen
            then (Fail (AlreadyExists "container" ctrdID), ctr1, st)
            else
              match deleteCtrdContainer st (Some ctrdCtr)
                      (c_domain ctr) (c_id ctr) false with
              | (Ret _, st1) => (Ret tt, ctr1, st1)
              | (Fail e, st1) => (Fail e, ctr1, st1)
              | (Panic, st1) => (Panic, ctr1, st1)
              end
        end
    end in
  match existing with
  | (Panic, ctr1, st1) => (Panic, ctr1, st1)
  | (Fail e, ctr1, st1) => (Fail e, ctr1, st1)
  | (Ret _, ctr1, st1) =>
      (* update any incomplete spec *)
      match Config (c_image ctr1) with
      | Panic => (Panic, ctr1, st1)
      | Fail _ => (Fail (RuntimeError "failed to get image OCI spec"), ctr1, st1)
      | Ret config =>
          let spec := {| SpecProcess := Some (completeProcess (c_spec ctr1) config);
                         SpecLinux := SpecLinux (c_spec ctr1) |} in
          let ctr2 := set_spec ctr1 (aliasedSpec (c_spec ctr1) config) in
          (* create container *)
          let uuidName := composeCtrdID (c_domain ctr) (c_id ctr) in
          let labels : gmap string string :=
            <[containerdUIDLabel := strconv.FormatUint (c_uid ctr)]>
              (<[containerdGenerationLabel := gen]> ∅) in
          match ctrd.NewContainer st1 uuidName (c_image ctr2) spec labels with
          | inl _ => (Fail (RuntimeError "failed to create container"), ctr2, st1)
          | inr (ctrdCtr, st2) => (Ret tt, set_ctrdContainer ctr2 (Some ctrdCtr), st2)
          end
      end
  end.

(** For containerd, we support the snapshots, so nothing to do here, other
    than setting the new generation value. *)
Definition Commit (st : Backend) (ctr : container) (gen : Bytes16)
  : outcome unit * container * Backend :=
  match c_ctrdContainer ctr with
  | None => (Panic, ctr, st)
  | Some c =>
      match ctrd.Labels st c with
      | inl e => (Fail (ErrBackend e), ctr, st)
      | inr labels =>
          let labels' := <[containerdGenerationLabel := hex.EncodeToString gen]> labels in
          match ctrd.SetLabels st c labels' with
          | (Some e, st1) => (Fail (ErrBackend e), ctr, st1)
          | (None, st1) => (Ret tt, ctr, st1)
          end
      end
  end.

(** [runtime.Stream], the field the code branches on. *)
Record Stream := {
  Terminal : bool
}.

(** The handle [Exec] returns. *)
Record process := {
  p_container : container;
  p_ctrdProc : string
}.

(** Exec executes the provided command.  [execID] is the fresh UUID the
    call draws. *)
Definition Exec (st : Backend) (ctr : container) (stream : Stream)
    (execID : string) (procSpec : Process)
  : outcome process * container * Backend :=
  match c_ctrdContainer ctr with
  | None => (Panic, ctr, st)
  | Some ctrdCtr =>
      let '(task, ctr1, st1) :=
        match ctrd.Task st ctrdCtr with
        | inr t => (Ret t, ctr, st)
        | inl e =>
            if IsNotFound e then createTask st ctr
            else (Fail (ErrBackend e), ctr, st)
        end in
      match task with
      | Panic => (Panic, ctr1, st1)
      | Fail _ => (Fail (RuntimeError "failed to get task"), ctr1, st1)
      | Ret ctrdTask =>
          match ctrd.Exec st1 ctrdTask execID procSpec with
          | inl _ => (Fail (RuntimeError "exec failed"), ctr1, st1)
          | inr ctrdProc =>
              match ctrd.Start st1 procSpec with
              | Some e =>
                  if negb (IsNotFound e) then
                    match Args procSpec with
                    | [] => (Panic, ctr1, st1)
                    | cmd :: _ => (Fail (NotFound "command" cmd), ctr1, st1)
                    end
                  else (Fail (RuntimeError "starting process failed"), ctr1, st1)
              | None =>
                  (Ret {| p_container := ctr1; p_ctrdProc := ctrdProc |}, ctr1, st1)
              end
          end
      end
  end.

(** deleteContainer deletes the container, task, and active snapshot.  This
    function returns not-found if a container was not specified and could
    not be found. *)
Definition deleteContainer (st : Backend) (domain id : Bytes16) (purge : bool)
  : outcome unit * Backend :=
  let ctrdID := composeCtrdID domain id in
  match ctrd.LoadContainer st ctrdID with
  | inl e =>
      if IsNotFound e then (Fail (NotFound "container" ctrdID), st)
      else (Fail (RuntimeError "failed to get container"), st)
  | inr ctrdCtr => deleteCtrdContainer st (Some ctrdCtr) domain id purge
  end.

Definition Delete (st : Backend) (ctr : container) : outcome unit * Backend :=
  deleteCtrdContainer st (c_ctrdContainer ctr) (c_domain ctr) (c_id ctr) false.

Definition Purge (st : Backend) (ctr : container) : outcome unit * Backend :=
  deleteCtrdContainer st (c_ctrdContainer ctr) (c_domain ctr) (c_id ctr) true.

(** ** Snapshot enumeration *)

(** The callback of the walk: a snapshot not yet known as a parent is
    recorded, and its parent is marked. *)
Definition walkFn (acc : gmap string SnapInfo * gmap string bool) (info : SnapInfo)
  : gmap string SnapInfo * gmap string bool :=
  let '(snapMap, isParent) := acc in
  let snapMap1 :=
    if negb (default false (isParent !! Name info))
    then <[Name info := info]> snapMap else snapMap in
  let isParent1 :=
    if negb (String.eqb (Parent info) "")
    then <[Parent info := true]> isParent else isParent in
  (snapMap1, isParent1).

(** [for p := range isParent { if _, ok := snapMap[p]; ok { delete(snapMap, p) } }] *)
Definition dropParents (snapMap : gmap string SnapInfo) (isParent : gmap string bool)
  : gmap string SnapInfo :=
  foldr (fun p m => if bool_decide (is_Some (m !! p)) then delete p m else m)
        snapMap (map_to_list isParent).*1.

(** [Snapshots(domain)]; the slice is filled by ranging over a Go map, so
    its order is not fixed. *)
Definition Snapshots (st : Backend) (domain : Bytes16) : outcome (list SnapInfo) :=
  let '(snapMap, isParent) := fold_left walkFn (snapshots st) (∅, ∅) in
  let snapMap1 := dropParents snapMap isParent in
  Ret (map_to_list snapMap1).*2.

(** ** Progress display *)

(** [runtime.ProgressStatus] *)
Record ProgressStatus := {
  Reference : string;
  Status : string;
  Details : string;
  Offset : Z;
  Total : Z
}.

(** Modelled from the spec: the constant [runtime.StatusRunning] (declared
    outside the sources at hand); the status of an item being transferred. *)
Definition StatusRunning : string := "running".

(** What the loop of [showImageProgress] keeps between batches. *)
Record Display := {
  lines : Z;
  ticks : Z;
  statCached : gmap string ProgressStatus;
  statRefs : list string
}.

(** One line of output: the 12 characters of the reference and what
    follows them (sizes and status are kept as values, not formatted). *)
Inductive LineText :=
| Extracting (tick : Z)
| Downloading (offset total : Z)
| Titled (status : string).

Record Line := {
  lineRef : string;
  lineText : LineText
}.

(** The body of [for _, status := range statUpdate]. *)
Definition recordStatus (acc : gmap string ProgressStatus * list string)
    (status : ProgressStatus) : gmap string ProgressStatus * list string :=
  let '(cached, refs) := acc in
  let refs1 :=
    match cached !! Reference status with
    | Some _ => refs
    | None => (refs ++ [Reference status])%list
    end in
  (<[Reference status := status]> cached, refs1).

Definition zeroStatus : ProgressStatus :=
  {| Reference := EmptyString; Status := EmptyString; Details := EmptyString;
     Offset := 0; Total := 0 |}.

(** The body of [for _, ref := range statRefs]; [None] is the panic of
    [ref[:12]] on a reference shorter than 12 bytes. *)
Definition renderLine (cached : gmap string ProgressStatus) (ticks : Z) (ref : string)
  : option Line :=
  let status := default zeroStatus (cached !! ref) in
  let decoded := Go.Index ref ":" in
  let ref1 := if (0 <? decoded)%Z then Go.slice_from ref (decoded + 1) else Some ref in
  match ref1 with
  | None => None
  | Some r =>
      match Go.slice_to r 12 with
      | None => None
      | Some short =>
          Some {| lineRef := short;
                  lineText :=
                    if String.eqb (Status status) StatusRunning then
                      if (Offset status =? Total status)%Z
                      then Extracting (Z.land ticks 3)
                      else Downloading (Offset status) (Total status)
                    else Titled (Status status) |}
      end
  end.

Fixpoint renderLines (cached : gmap string ProgressStatus) (ticks : Z)
    (refs : list string) : option (list Line) :=
  match refs with
  | [] => Some []
  | ref :: rest =>
      match renderLine cached ticks ref with
      | None => None
      | Some l =>
          match renderLines cached ticks rest with
          | None => None
          | Some ls => Some (l :: ls)
          end
      end
  end.

(** One iteration of [for statUpdate := range progress]. *)
Definition showBatch (d : Display) (statUpdate : list ProgressStatus)
  : option (Display * list Line) :=
  let '(cached, refs) := fold_left recordStatus statUpdate (statCached d, statRefs d) in
  match renderLines cached (ticks d) refs with
  | None => None
  | Some out =>
      Some ({| lines := Z.of_nat (length refs); ticks := ticks d + 1;
               statCached := cached; statRefs := refs |}, out)
  end.

Fixpoint showLoop (d : Display) (progress : list (list ProgressStatus))
  : outcome (Display * list (list Line)) :=
  match progress with
  | [] => Ret (d, [])
  | statUpdate :: rest =>
      match showBatch d statUpdate with
      | None => Panic
      | Some (d1, out) =>
          match showLoop d1 rest with
          | Ret (d2, outs) => Ret (d2, out :: outs)
          | Fail e => Fail e
          | Panic => Panic
          end
      end
  end.

(** showImageProgress displays the progress of sequential or parallel jobs.
    The channel is the sequence of batches received until it is closed. *)
Definition showImageProgress (progress : list (list ProgressStatus))
  : outcome (Display * list (list Line)) :=
  showLoop {| lines := 0; ticks := 0; statCached := ∅; statRefs := [] |} progress.

(** ** Reference notions the properties are stated with *)

(** The references of a stream in the order of their first occurrence. *)
Fixpoint firstSeen (refs : list string) : list string :=
  match refs with
  | [] => []
  | r :: rest => r :: List.filter (fun r' => negb (String.eqb r' r)) (firstSeen rest)
  end.

(** The status received last for a reference. *)
Definition latestStatus (stream : list ProgressStatus) (ref : string)
  : option ProgressStatus :=
  last (List.filter (fun s => String.eqb (Reference s) ref) stream).

(** A snapshot is a leaf of the store when no snapshot names it as parent. *)
Definition isLeaf (l : list SnapInfo) (name : string) : Prop :=
  name ∈ Name <$> l ∧ ∀ info, info ∈ l → Parent info = name → Parent info = EmptyString.

(** What the walk has established after visiting [seen]. *)
Definition walked (acc : gmap string SnapInfo * gmap string bool) (seen : list SnapInfo)
  : Prop :=
  (∀ p b, acc.2 !! p = Some b →
          b = true ∧ p ≠ EmptyString ∧ ∃ i, i ∈ seen ∧ Parent i = p)
  ∧ (∀ i, i ∈ seen → Parent i ≠ EmptyString → acc.2 !! Parent i = Some true)
  ∧ (∀ n info, acc.1 !! n = Some info → Name info = n ∧ info ∈ seen)
  ∧ (∀ info, info ∈ seen →
       (∀ i, i ∈ seen → Parent i = Name info → Parent i = EmptyString) →
       is_Some (acc.1 !! Name info)).

(** A snapshot belongs to a domain when it lies on the chain of the active
    snapshot of one of the domain's containers. *)
Definition ownedBy (st : Backend) (domain : Bytes16) (name : string) : Prop :=
  ∃ id root,
    active st !! composeCtrdID domain id = Some root
    ∧ name ∈ snapshotChain (length (snapshots st)) (snapshots st) root.

(** A key is well formed when it is two groups of 32 hex digits joined by
    one delimiter. *)
Definition hexGroup (s : string) : bool :=
  match hex.DecodeString s with
  | hex.Decoded bs => Nat.eqb (length bs) 16
  | hex.Invalid _ => false
  end.

Definition wellFormedKey (key : string) : Prop :=
  ∃ l r : string, key = l ++ "-" ++ r ∧ hexGroup l = true ∧ hexGroup r = true.

(** A string free of the delimiter. *)
Fixpoint noDash (s : string) : Prop :=
  match s with
  | EmptyString => True
  | String c s' => c ≠ "-"%char ∧ noDash s'
  end.

(** The daemon's content once the task and the container object under a key
    are gone; the snapshot store is as before. *)
Definition withoutContainer (st : Backend) (key : string) : Backend :=
  set_containers (set_tasks st (delete key (tasks st))) (delete key (containers st)).

(** The labels [Create] stamps a new container object with. *)
Definition createLabels (ctr : container) : gmap string string :=
  <[containerdUIDLabel := strconv.FormatUint (c_uid ctr)]>
    (<[containerdGenerationLabel := hex.EncodeToString (c_generation ctr)]> ∅).

(** ** Sample data the closed examples are evaluated at *)

Module Sample.

Definition dom : Bytes16 := repeat x01 16.
Definition cid : Bytes16 := repeat x02 16.
Definition gen1 : Bytes16 := repeat x03 16.
Definition gen2 : Bytes16 := repeat x04 16.

Definition key : string := composeCtrdID dom cid.

Definition img : image :=
  {| imgName := "docker.io/library/alpine:latest";
     imgConfig := {| Entrypoint := []; Cmd := ["/bin/sh"]; WorkingDir := EmptyString |} |}.

Definition spec : Spec := {| SpecProcess := None; SpecLinux := Some tt |}.

Definition ctr (g : Bytes16) (h : option string) : container :=
  {| c_domain := dom; c_id := cid; c_generation := g; c_uid := 1000;
     c_spec := spec; c_image := img; c_ctrdContainer := h |}.

(** A daemon holding one container under [key] with the given labels and
    task, and an empty snapshot store. *)
Definition backend (labels : gmap string string) (task : option ProcessStatus)
    (start : Process -> option CtrdError) : Backend :=
  {| containers := {[ key := {| ctrLabels := labels; ctrImage := img; ctrSpec := spec |} ]};
     tasks := match task with Some s => {[ key := s ]} | None => ∅ end;
     snapshots := [];
     active := ∅;
     startError := start |}.

Definition started : Process -> option CtrdError := fun _ => None.

Definition dom2 : Bytes16 := repeat x05 16.
Definition key2 : string := composeCtrdID dom2 cid.

Definition base : SnapInfo := {| Name := "base"; Parent := EmptyString |}.
Definition snapA : SnapInfo := {| Name := "snap-a"; Parent := "base" |}.
Definition snapB : SnapInfo := {| Name := "snap-b"; Parent := "base" |}.

(** A snapshot store shared by two domains: [snapA] is the active snapshot
    of a container of [dom], [snapB] that of a container of [dom2]; both
    stand on the image layer [base]. *)
Definition twoDomains : Backend :=
  {| containers := ∅;
     tasks := ∅;
     snapshots := [base; snapA; snapB];
     active := <[key := "snap-a"]> (<[key2 := "snap-b"]> ∅);
     startError := started |}.

Definition refA : string := "sha256:aaaaaaaaaaaaaaaa".
Definition refB : string := "sha256:bbbbbbbbbbbbbbbb".
Definition refC : string := "sha256:cccccccccccccccc".

Definition status (ref st : string) (offset total : Z) : ProgressStatus :=
  {| Reference := ref; Status := st; Details := EmptyString;
     Offset := offset; Total := total |}.

(** Three content items reported over three batches. *)
Definition progress : list (list ProgressStatus) :=
  [ [status refA "queued" 0 100; status refB "queued" 0 50];
    [status refA "running" 10 100; status refC "queued" 0 70;
     status refB "running" 50 50];
    [status refA "done" 100 100; status refB "done" 50 50;
     status refC "done" 70 70] ].

End Sample.

(** * Further parts of the code *)

(** ** The runtime registry (package [runtime]) *)

Module runtime.

(** [config.Runtime], the fields the code reads. *)
Record ConfigRuntime := {
  cfName : string;
  SocketName : string;
  Namespace : string
}.

(** The interface [runtimeType]: something that can open a runtime. *)
Class runtimeType (T R : Type) := {
  rtOpen : T -> ConfigRuntime -> outcome R
}.

Section Registry.

Context {T R : Type} {RT : runtimeType T R}.

(** Register registers a new Runtime Registrar.  The package variable
    [runtimes] is a map that starts out nil ([None]). *)
Definition Register (runtimes : option (gmap string T)) (name : string) (runType : T)
  : outcome unit * option (gmap string T) :=
  let runtimes1 := match runtimes with
                   | None => ∅
                   | Some m => m
                   end in
  match runtimes1 !! name with
  | Some _ => (Fail (AlreadyExists "runtime" name), Some runtimes1)
  | None => (Ret tt, Some (<[name := runType]> runtimes1))
  end.

(** [Runtimes]; the slice is filled by ranging over the map. *)
Definition Runtimes (runtimes : option (gmap string T)) : list string :=
  match runtimes with
  | None => []
  | Some m => (map_to_list m).*1
  end.

(** Open opens a new runtime for the specified name *)
Definition Open (runtimes : option (gmap string T)) (confRun : ConfigRuntime)
  : outcome R :=
  match (match runtimes with None => None | Some m => m !! cfName confRun end) with
  | None => Fail (NotFound "runtime" (cfName confRun))
  | Some reg => rtOpen reg confRun
  end.

(** A run of [Register] calls, as the [init] functions of the backends make
    them; their errors are dropped as [init] drops them. *)
Definition registerAll (regs : list (string * T)) (runtimes : option (gmap string T))
  : option (gmap string T) :=
  fold_left (fun r nt => (Register r nt.1 nt.2).2) regs runtimes.

End Registry.

End runtime.

(** ** Listing containers *)

(** [client.Containers]: the handles of all container objects of the store. *)
Definition ctrdContainers (st : Backend) : list string :=
  (map_to_list (containers st)).*1.

(** A value passed for the variadic [filters ...interface{}]: a [[16]byte]
    or a value of another type. *)
Inductive FilterArg :=
| ArgBytes16 (d : Bytes16)
| ArgOther.

(** The body of the loop of [getContainers] over the remaining handles;
    [runCtrs] is the slice built so far. *)
Fixpoint getContainersLoop (st : Backend) (hasDomain : bool) (domain : Bytes16)
    (ctrdCtrs : list string) (runCtrs : list container) : outcome (list container) :=
  match ctrdCtrs with
  | [] => Ret runCtrs
  | c :: rest =>
      match splitCtrdID c with
      | Panic => Panic
      | Fail e => Fail e
      | Ret (dom, id) =>
          if hasDomain && bool_decide (dom ≠ domain)
          then getContainersLoop st hasDomain domain rest runCtrs
          else
            match getGeneration st c with
            | Ret gen =>
                match getUID st c with
                | Ret uid =>
                    match ctrd.Image st c with
                    | inl _ => Fail (RuntimeError "failed to get image")
                    | inr img =>
                        match ctrd.GetSpec st c with
                        | inl _ => Fail (RuntimeError "failed to get image spec")
                        | inr spec =>
                            getContainersLoop st hasDomain domain rest
                              (runCtrs ++ [newContainer c dom id gen uid img spec])%list
                        end
                    end
                | Fail _ => getContainersLoop st hasDomain domain rest runCtrs
                | Panic => Panic
                end
            | Fail _ => getContainersLoop st hasDomain domain rest runCtrs
            | Panic => Panic
            end
      end
  end.

(** getContainers returns all containers in the specified domain *)
Definition getContainers (st : Backend) (filters : list FilterArg)
  : outcome (list container) :=
  match filters with
  | _ :: _ :: _ => Fail (InvalidArgument "too many arguments to get containers")
  | [ArgOther] => Fail (InvalidArgument "invalid arguments for getting containers")
  | [ArgBytes16 domain] => getContainersLoop st true domain (ctrdContainers st) []
  | [] => getContainersLoop st false (repeat x00 16) (ctrdContainers st) []
  end.

(** The loop of the method [Containers]: generation and uid are not read,
    the fields keep their zero values. *)
Fixpoint ContainersLoop (st : Backend) (domain : Bytes16)
    (ctrdCtrs : list string) (runCtrs : list container) : outcome (list container) :=
  match ctrdCtrs with
  | [] => Ret runCtrs
  | c :: rest =>
      match splitCtrdID c with
      | Panic => Panic
      | Fail e => Fail e
      | Ret (dom, id) =>
          if bool_decide (dom ≠ domain) then ContainersLoop st domain rest runCtrs
          else
            match ctrd.Image st c with
            | inl _ => Fail (RuntimeError "failed to get image")
            | inr img =>
                match ctrd.GetSpec st c with
                | inl _ => Fail (RuntimeError "failed to get image spec")
                | inr spec =>
                    ContainersLoop st domain rest
                      (runCtrs ++ [{| c_domain := dom; c_id := id;
                                      c_generation := repeat x00 16; c_uid := 0;
                                      c_spec := spec; c_image := img;
                                      c_ctrdContainer := Some c |}])%list
                end
            end
      end
  end.

Definition Containers (st : Backend) (domain : Bytes16) : outcome (list container) :=
  ContainersLoop st domain (ctrdContainers st) [].

(** ** Updating the spec *)

(** [Container.Update] with the option the code passes: the stored spec is
    replaced, the rest of the object stays. *)
Definition ctrdUpdate (st : Backend) (c : string) (spec : Spec)
  : option CtrdError * Backend :=
  match containers st !! c with
  | None => (Some CtrdNotFound, st)
  | Some r =>
      (None, set_containers st
               (<[c := {| ctrLabels := ctrLabels r; ctrImage := ctrImage r;
                          ctrSpec := spec |}]> (containers st)))
  end.

(** [UpdateSpec]: [spec := &ctr.spec] points into the container, so the
    completion is written to [ctr.spec] itself. *)
Definition UpdateSpec (st : Backend) (ctr : container) (newSpec : Spec)
  : outcome unit * container * Backend :=
  match Config (c_image ctr) with
  | Panic => (Panic, set_spec ctr {| SpecProcess :=
                                       Some (match SpecProcess newSpec with
                                             | Some p => p
                                             | None => {| Args := []; Cwd := EmptyString |}
                                             end);
                                     SpecLinux := SpecLinux newSpec |}, st)
  | Fail _ =>
      (Fail (RuntimeError "failed to get image OCI spec"),
       set_spec ctr {| SpecProcess :=
                         Some (match SpecProcess newSpec with
                               | Some p => p
                               | None => {| Args := []; Cwd := EmptyString |}
                               end);
                       SpecLinux := SpecLinux newSpec |}, st)
  | Ret config =>
      let spec := {| SpecProcess := Some (completeProcess newSpec config);
                     SpecLinux := SpecLinux newSpec |} in
      let ctr1 := set_spec ctr spec in
      match c_ctrdContainer ctr with
      | None => (Panic, ctr1, st)
      | Some ctrdCtr =>
          match ctrdUpdate st ctrdCtr spec with
          | (Some _, st1) => (Fail (RuntimeError "failed to update container"), ctr1, st1)
          | (None, st1) => (Ret tt, ctr1, st1)
          end
      end
  end.

(** ** The image handler of [PullImage] *)

(** [ocispec.Descriptor], the fields the code reads. *)
Record Descriptor := {
  MediaType : string;
  Digest : string
}.

(** [images.MediaTypeDockerSchema1Manifest] *)
Definition MediaTypeDockerSchema1Manifest : string :=
  "application/vnd.docker.distribution.manifest.v1+prettyjws".

(** The handler [h]: one call, made with the mutex held, on the slice
    [descs]. *)
Definition imageHandler (descs : list Descriptor) (desc : Descriptor) : list Descriptor :=
  if negb (String.eqb (MediaType desc) MediaTypeDockerSchema1Manifest) then
    let found := existsb (fun d => String.eqb (Digest desc) (Digest d)) descs in
    if negb found then (descs ++ [desc])%list else descs
  else descs.

(** The slice after the handler has been called on a sequence of
    descriptors, in the order in which the calls took the mutex. *)
Definition handledDescs (calls : list Descriptor) : list Descriptor :=
  fold_left imageHandler calls [].

(** ** Sizes and the build progress display ([cli/common.go]) *)

(** A Go [int64] result: the value wrapped into the signed 64-bit range. *)
Definition int64 (z : Z) : Z := ((z + 2 ^ 63) mod 2 ^ 64 - 2 ^ 63)%Z.

(** What [sizeToSIString] hands to [fmt.Sprintf]: the byte count for
    ["%dB"], or the size, the divisor and the unit letter for ["%.1f%cB"]
    (the floating-point quotient is not formed here). *)
Inductive SIString :=
| PlainBytes (b : Z)
| Scaled (sz div : Z) (prefix : ascii).

(** [for n := b / unit; n >= unit; n /= unit { div *= unit; exp++ }]; [None]
    when the fuel does not last. *)
Fixpoint siLoop (fuel : nat) (n div exp : Z) : option (Z * Z) :=
  if (1000 <=? n)%Z then
    match fuel with
    | O => None
    | S fuel' => siLoop fuel' (Z.quot n 1000) (int64 (div * 1000)) (int64 (exp + 1))
    end
  else Some (div, exp).

(** sizeToSIString converts the provide integer value to a SI size string
    from the 10^3x exponent.  [Panic] is an index out of the range of
    ["kMGTPE"]. *)
Definition sizeToSIString (fuel : nat) (sz : Z) : option (outcome SIString) :=
  let b := if (sz <? 0)%Z then int64 (- sz) else sz in
  if (b <? 1000)%Z then Some (Ret (PlainBytes b))
  else
    match siLoop fuel (Z.quot b 1000) 1000 0 with
    | None => None
    | Some (div, exp) =>
        if (exp <? 0)%Z then Some Panic
        else
          match String.get (Z.to_nat exp) "kMGTPE" with
          | None => Some Panic
          | Some c => Some (Ret (Scaled sz div c))
          end
    end.

(** One line of [showBuildProgress]. *)
Inductive BuildText :=
| BuildDetails (details : string)
| BuildTitled (status : string).

Record BuildLine := {
  buildRef : string;
  buildText : BuildText
}.

(** The body of [for _, ref := range statRefs] in [showBuildProgress]; the
    reference is cut to at most 12 bytes. *)
Definition renderBuildLine (cached : gmap string ProgressStatus) (ref : string)
  : option BuildLine :=
  let status := default zeroStatus (cached !! ref) in
  let decoded := Go.Index ref ":" in
  let ref1 := if (0 <? decoded)%Z then Go.slice_from ref (decoded + 1) else Some ref in
  match ref1 with
  | None => None
  | Some r =>
      let reflen := if (12 <? Go.len r)%Z then 12%Z else Go.len r in
      match Go.slice_to r reflen with
      | None => None
      | Some short =>
          Some {| buildRef := short;
                  buildText :=
                    if String.eqb (Status status) StatusRunning
                    then BuildDetails (Details status)
                    else BuildTitled (Status status) |}
      end
  end.

Fixpoint renderBuildLines (cached : gmap string ProgressStatus) (refs : list string)
  : option (list BuildLine) :=
  match refs with
  | [] => Some []
  | ref :: rest =>
      match renderBuildLine cached ref with
      | None => None
      | Some l =>
          match renderBuildLines cached rest with
          | None => None
          | Some ls => Some (l :: ls)
          end
      end
  end.

Definition showBuildBatch (d : Display) (statUpdate : list ProgressStatus)
  : option (Display * list BuildLine) :=
  let '(cached, refs) := fold_left recordStatus statUpdate (statCached d, statRefs d) in
  match renderBuildLines cached refs with
  | None => None
  | Some out =>
      Some ({| lines := Z.of_nat (length refs); ticks := ticks d + 1;
               statCached := cached; statRefs := refs |}, out)
  end.

Fixpoint showBuildLoop (d : Display) (progress : list (list ProgressStatus))
  : outcome (Display * list (list BuildLine)) :=
  match progress with
  | [] => Ret (d, [])
  | statUpdate :: rest =>
      match showBuildBatch d statUpdate with
      | None => Panic
      | Some (d1, out) =>
          match showBuildLoop d1 rest with
          | Ret (d2, outs) => Ret (d2, out :: outs)
          | Fail e => Fail e
          | Panic => Panic
          end
      end
  end.

(** showBuildProgress displays the progress of sequential or parallel jobs *)
Definition showBuildProgress (progress : list (list ProgressStatus))
  : outcome (Display * list (list BuildLine)) :=
  showBuildLoop {| lines := 0; ticks := 0; statCached := ∅; statRefs := [] |} progress.

(** ** The process user ([config/user.go]) *)

Module config.

Definition defaultShell : string := "/bin/bash".

(** A Go [uint32] conversion. *)
Definition uint32 (z : Z) : Z := (z mod 2 ^ 32)%Z.

Record User := {
  Username : string;
  Groupname : string;
  Shell : string;
  IsSudo : bool;
  IsSuid : bool;
  UID : Z;
  GID : Z;
  HomeDir : string;
  Pwd : string;
  BuildUID : Z;
  BuildGID : Z
}.

(** [os/user.User] and [os/user.Group], the fields the code reads. *)
Record OSUser := {
  osUsername : string;
  osHomeDir : string
}.

Record OSGroup := {
  grName : string
}.

(** What the calls into [os] and [os/user] answer for the process; [None]
    is a call that returns an error (and a nil pointer where it returns
    one). *)
Record Env := {
  Current : option OSUser;
  Getuid : Z;
  Getgid : Z;
  Geteuid : Z;
  Getenv : string -> string;
  LookupGroupId : string -> option OSGroup;
  Getwd : option string
}.

(** [strconv.Atoi] on a 64-bit platform, value only (the code drops the
    error): an optional sign and a non-empty run of decimal digits, clamped
    to the range of [int]; 0 on a syntax error. *)
Definition Atoi (s : string) : Z :=
  let '(neg, body) :=
    match s with
    | String "-" rest => (true, rest)
    | String "+" rest => (false, rest)
    | _ => (false, s)
    end in
  match body with
  | EmptyString => 0%Z
  | _ =>
      match strconv.digits body 0 with
      | None => 0%Z
      | Some n =>
          if neg then Z.max (- Z.of_N n) (- 2 ^ 63)
          else Z.min (Z.of_N n) (2 ^ 63 - 1)
      end
  end.

(** [strconv.Itoa] *)
Definition Itoa (z : Z) : string :=
  if (z <? 0)%Z then "-" ++ strconv.FormatUint (Z.to_N (- z))
  else strconv.FormatUint (Z.to_N z).

Inductive result :=
| Got (u : User)
| Failed
| Panicked.

Definition getProcessUser (env : Env) : result :=
  match Current env with
  | None => Failed
  | Some usr =>
      let isSuid := negb (Z.eqb (Getuid env) (Geteuid env)) in
      let sudo_user := Getenv env "SUDO_USER" in
      let '(isSudo, username, uid, gid) :=
        if negb (String.eqb sudo_user "")
        then (true, sudo_user, Atoi (Getenv env "SUDO_UID"), Atoi (Getenv env "SUDO_GID"))
        else (false, osUsername usr, Getuid env, Getgid env) in
      let shell := if String.eqb (Getenv env "SHELL") "" then defaultShell
                   else Getenv env "SHELL" in
      match LookupGroupId env (Itoa gid) with
      | None => Panicked
      | Some _ =>
          let groupname := username in
          let pwd := match Getwd env with
                     | Some p => p
                     | None => osHomeDir usr
                     end in
          Got {| Username := username; Groupname := groupname; IsSudo := isSudo;
                 IsSuid := isSuid; HomeDir := osHomeDir usr; Pwd := pwd;
                 Shell := shell; UID := uint32 uid; GID := uint32 gid;
                 BuildUID := uint32 uid; BuildGID := uint32 gid |}
      end
  end.

End config.

(** Why a container value is part of a listing: it is built from an object
    of the store whose ID splits, whose domain passes the filter and whose
    generation and uid labels can be read. *)
Definition listedAs (st : Backend) (hasDomain : bool) (domain : Bytes16)
    (k : string) (ctr : container) : Prop :=
  ∃ r d i gen uid,
    containers st !! k = Some r
    ∧ splitCtrdID k = Ret (d, i)
    ∧ (hasDomain = true → d = domain)
    ∧ getGeneration st k = Ret gen
    ∧ getUID st k = Ret uid
    ∧ ctr = newContainer k d i gen uid (ctrImage r) (ctrSpec r).

(** Why a container value is part of the listing of the method
    [Containers]: it is built from an object of the domain whose ID splits;
    generation and uid keep their zero values. *)
Definition listedBare (st : Backend) (domain : Bytes16) (k : string) (ctr : container)
  : Prop :=
  ∃ r i,
    containers st !! k = Some r
    ∧ splitCtrdID k = Ret (domain, i)
    ∧ ctr = {| c_domain := domain; c_id := i; c_generation := repeat x00 16;
               c_uid := 0; c_spec := ctrSpec r; c_image := ctrImage r;
               c_ctrdContainer := Some k |}.

(** The registry entry of a name, if any (a nil map has none). *)
Definition registeredAs {T : Type} (runtimes : option (gmap string T)) (name : string)
  : option T :=
  match runtimes with
  | None => None
  | Some m => m !! name
  end.

(** The first registration made for a name in a run of registrations. *)
Fixpoint firstRegistered {T : Type} (name : string) (regs : list (string * T))
  : option T :=
  match regs with
  | [] => None
  | (n, t) :: rest => if String.eqb n name then Some t else firstRegistered name rest
  end.

(** A backend type for the examples: it is a socket path, and opening it
    gives the path together with the configured namespace. *)
Module SampleRuntime.

#[global] Instance socketRuntime : runtime.runtimeType string (string * string) :=
  {| runtime.rtOpen := fun t conf => Ret (t, runtime.Namespace conf) |}.

Definition conf (name : string) : runtime.ConfigRuntime :=
  {| runtime.cfName := name; runtime.SocketName := "/run/containerd.sock";
     runtime.Namespace := "cne" |}.

End SampleRuntime.

(** The descriptors the handler keeps: all but schema-1 manifests. *)
Definition keptDescs (calls : list Descriptor) : list Descriptor :=
  List.filter (fun d => negb (String.eqb (MediaType d) MediaTypeDockerSchema1Manifest))
    calls.

(** The part of a reference the progress displays print: what follows the
    first colon, when there is one behind the first byte. *)
Definition strippedRef (ref : string) : string :=
  if (0 <? Go.Index ref ":")%Z
  then Go.drop (Z.to_nat (Go.Index ref ":" + 1)) ref
  else ref.

(** A reference [showImageProgress] can print: 12 bytes or more are left
    of it. *)
Definition displayable (ref : string) : bool :=
  (12 <=? Go.len (strippedRef ref))%Z.

(** A process environment for the examples: user alice (uid and gid 1000),
    with the given SUDO_USER and SUDO_UID, SUDO_GID and SHELL unset, group
    lookups that succeed or not, and no working directory. *)
Definition sampleEnv (sudoUser sudoUid : string) (groups : bool) : config.Env :=
  {| config.Current := Some {| config.osUsername := "alice";
                               config.osHomeDir := "/home/alice" |};
     config.Getuid := 1000; config.Getgid := 1000; config.Geteuid := 1000;
     config.Getenv := fun v => if String.eqb v "SUDO_USER" then sudoUser
                               else if String.eqb v "SUDO_UID" then sudoUid
                               else EmptyString;
     config.LookupGroupId := fun _ => if groups
                                      then Some {| config.grName := "staff" |}
                                      else None;
     config.Getwd := None |}.

(** ** Splitting command lines ([cli/common.go]) *)

Module strings.

Definition bytes (codes : list N) : list ascii := map ascii_of_N codes.

(** The runes for which [unicode.IsSpace] holds, in UTF-8: tab, line feed,
    vertical tab, form feed, carriage return, space, U+0085, U+00A0,
    U+1680, U+2000 to U+200A, U+2028, U+2029, U+202F, U+205F and U+3000. *)
Definition spaces : list (list ascii) :=
  map bytes
    [ [9]; [10]; [11]; [12]; [13]; [32]; [194; 133]; [194; 160]; [225; 154; 128];
      [226; 128; 128]; [226; 128; 129]; [226; 128; 130]; [226; 128; 131];
      [226; 128; 132]; [226; 128; 133]; [226; 128; 134]; [226; 128; 135];
      [226; 128; 136]; [226; 128; 137]; [226; 128; 138]; [226; 128; 168];
      [226; 128; 169]; [226; 128; 175]; [226; 129; 159]; [227; 128; 128] ]%N.

(** [l] without the prefix [q], when it has that prefix. *)
Fixpoint dropPrefix (q l : list ascii) : option (list ascii) :=
  match q, l with
  | [], _ => Some l
  | a :: q', b :: l' => if Ascii.eqb a b then dropPrefix q' l' else None
  | _ :: _, [] => None
  end.

(** [l] without a leading sequence of [seqs], when it starts with one. *)
Fixpoint stripPrefix (seqs : list (list ascii)) (l : list ascii) : option (list ascii) :=
  match seqs with
  | [] => None
  | q :: rest =>
      match dropPrefix q l with
      | Some r => Some r
      | None => stripPrefix rest l
      end
  end.

(** Leading sequences of [seqs] are removed one after the other; the fuel
    counts the removals. *)
Fixpoint trim (seqs : list (list ascii)) (fuel : nat) (l : list ascii) : list ascii :=
  match fuel with
  | O => l
  | S fuel' =>
      match stripPrefix seqs l with
      | Some r => trim seqs fuel' r
      | None => l
      end
  end.

(** [TrimLeftFunc(s, unicode.IsSpace)]: the runes are decoded from the
    front, and a rune is a space exactly when the text starts with one of
    the encodings above. *)
Definition trimLeft (l : list ascii) : list ascii := trim spaces (length l) l.

(** [TrimRightFunc(s, unicode.IsSpace)]: the runes are decoded from the
    back, and the last rune is a space exactly when the text ends with one
    of the encodings above. *)
Definition trimRight (l : list ascii) : list ascii :=
  rev (trim (map (@rev ascii) spaces) (length l) (rev l)).

(** [strings.TrimSpace] *)
Definition TrimSpace (s : string) : string :=
  string_of_list_ascii (trimRight (trimLeft (list_ascii_of_string s))).

End strings.

(** What the loop of [scanLine] ends with: the command lines, a slice out
    of range, or the fuel used up. *)
Inductive ScanResult :=
| Lines (cmdLines : list string)
| ScanPanic
| ScanOutOfFuel.

(** The [for] loop of [scanLine]; [strings.IndexAny(line, ",")] is the
    index of the first comma. *)
Fixpoint scanLoop (fuel : nat) (line : string) (cmdLines : list string) : ScanResult :=
  match fuel with
  | O => ScanOutOfFuel
  | S fuel' =>
      let pos := Go.Index line "," in
      if negb (pos =? -1)%Z then
        match Go.slice_to line pos, Go.slice_from line (pos + 1) with
        | Some before, Some after =>
            let cmdLines1 :=
              if (0 <? pos)%Z then (cmdLines ++ [strings.TrimSpace before])%list
              else cmdLines in
            scanLoop fuel' (strings.TrimSpace after) cmdLines1
        | _, _ => ScanPanic
        end
      else Lines (cmdLines ++ [line])%list
  end.

(** scanLine splits up commands separated by a ',' into multiple command
    lines *)
Definition scanLine (line : string) : ScanResult :=
  let line1 := strings.TrimSpace line in
  if (Go.len line1 =? 0)%Z then Lines []
  else scanLoop (S (String.length line1)) line1 [].

(** A string free of commas. *)
Fixpoint noComma (s : string) : Prop :=
  match s with
  | EmptyString => True
  | String c s' => c ≠ ","%char ∧ noComma s'
  end.

(** Trimmed texts, as lists: nothing to take off at either end. *)
Definition trimmedL (l : list ascii) : Prop :=
  strings.stripPrefix strings.spaces l = None ∧
  strings.stripPrefix (map (@rev ascii) strings.spaces) (rev l) = None.

(** What [scanLine] promises of its commands: each is trimmed and free of
    commas, and only the last may be empty. *)
Definition commands (cmds : list string) : Prop :=
  (∀ c, c ∈ cmds → noComma c ∧ strings.TrimSpace c = c) ∧
  (∀ c, c ∈ removelast cmds → c ≠ "").

(** * Properties *)

(** ** Identity scheme *)

Section IdentityScheme.

Lemma take_app (s t : string) : Go.take (String.length s) (s ++ t) = s.
Proof. induction s as [|c s IH]; simpl; [by destruct t | by rewrite IH]. Qed.

Lemma drop_app (s t : string) (c : ascii) :
  Go.drop (S (String.length s)) (s ++ String c t) = t.
Proof. induction s as [|a s IH]; simpl; [done | exact IH]. Qed.

Lemma string_length_app (s t : string) :
  String.length (s ++ t) = String.length s + String.length t.
Proof. induction s as [|a s IH]; simpl; [done | by rewrite IH]. Qed.

Lemma Index_dash (s t : string) :
  noDash s → Go.Index (s ++ String "-" t) "-" = Go.len s.
Proof.
  unfold Go.len. induction s as [|c s IH]; intros Hs.
  - simpl. by destruct t.
  - destruct Hs as [Hc Hs]. specialize (IH Hs).
    change (String c s ++ String "-" t) with (String c (s ++ String "-" t)).
    cbn [Go.Index String.prefix].
    destruct (ascii_dec "-" c) as [E|_]; [congruence|].
    rewrite IH. cbn [String.length].
    destruct (Z.ltb_spec (Z.of_nat (String.length s)) 0); lia.
Qed.

Lemma hex_byte (v : byte) :
  let a := hex.digit (N.shiftr (Byte.to_N v) 4) in
  let b := hex.digit (N.land (Byte.to_N v) 15) in
  a ≠ "-"%char ∧ b ≠ "-"%char ∧
  ∃ hi lo, hex.fromHexChar a = Some hi ∧ hex.fromHexChar b = Some lo ∧ hex.pack hi lo = v.
Proof.
  destruct v; cbv zeta; (split; [by vm_compute|]); (split; [by vm_compute|]);
    vm_compute; eexists _, _; split_and!; reflexivity.
Qed.

Lemma Encode_noDash (bs : list byte) : noDash (hex.EncodeToString bs).
Proof.
  induction bs as [|v bs IH]; simpl; [done|].
  destruct (hex_byte v) as (Ha & Hb & _). auto.
Qed.

Lemma Encode_length (bs : list byte) :
  String.length (hex.EncodeToString bs) = 2 * length bs.
Proof. induction bs as [|v bs IH]; simpl; [done | rewrite IH; lia]. Qed.

Lemma Decode_Encode (bs : list byte) :
  hex.DecodeString (hex.EncodeToString bs) = hex.Decoded bs.
Proof.
  induction bs as [|v bs IH]; [done|].
  destruct (hex_byte v) as (_ & _ & hi & lo & Hhi & Hlo & Hv).
  cbn [hex.EncodeToString hex.DecodeString].
  rewrite Hhi, Hlo, IH. by rewrite Hv.
Qed.

Lemma copy16_id (bs : list byte) : length bs = 16 → Go.copy16 bs = bs.
Proof.
  intros H. unfold Go.copy16. rewrite H. simpl.
  rewrite app_nil_r. rewrite <- H. apply firstn_all.
Qed.

Lemma copy16_length (bs : list byte) : length (Go.copy16 bs) = 16.
Proof.
  unfold Go.copy16. rewrite length_app, length_firstn, repeat_length. lia.
Qed.

(** C4: for all 16-byte values domain and id, splitting the composed key
    succeeds and gives back exactly (domain, id). *)
Theorem split_compose_roundtrip (domain id : Bytes16) :
  length domain = 16 → length id = 16 →
  splitCtrdID (composeCtrdID domain id) = Ret (domain, id).
Proof.
  intros Hd Hi. unfold splitCtrdID, composeCtrdID.
  change ("-" ++ hex.EncodeToString id) with (String "-" (hex.EncodeToString id)).
  rewrite Index_dash by apply Encode_noDash.
  unfold Go.slice_to, Go.slice_from, Go.len.
  rewrite string_length_app. cbn [String.length].
  set (n := String.length (hex.EncodeToString domain)).
  replace ((0 <=? Z.of_nat n) && (Z.of_nat n <=? Z.of_nat (n + S (String.length (hex.EncodeToString id)))))%Z
    with true by (symmetry; apply andb_true_iff; split; apply Z.leb_le; lia).
  rewrite Nat2Z.id. subst n. rewrite take_app, Decode_Encode.
  replace ((0 <=? Z.of_nat (String.length (hex.EncodeToString domain)) + 1)
           && (Z.of_nat (String.length (hex.EncodeToString domain)) + 1
               <=? Z.of_nat (String.length (hex.EncodeToString domain)
                             + S (String.length (hex.EncodeToString id)))))%Z
    with true by (symmetry; apply andb_true_iff; split; apply Z.leb_le; lia).
  replace (Z.to_nat (Z.of_nat (String.length (hex.EncodeToString domain)) + 1))
    with (S (String.length (hex.EncodeToString domain))) by lia.
  rewrite drop_app, Decode_Encode.
  by rewrite !copy16_id.
Qed.

Lemma split_compose_roundtrip_witness :
  splitCtrdID (composeCtrdID (repeat x0a 16) (repeat xff 16))
  = Ret (repeat x0a 16, repeat xff 16).
Proof. apply split_compose_roundtrip; reflexivity. Defined.

Lemma splitCtrdID_fail (key : string) (e : Error) :
  splitCtrdID key = Fail e →
  e = InvalidArgument ("container ID is invalid: '" ++ key ++ "'").
Proof.
  unfold splitCtrdID. intros H.
  repeat match type of H with
         | match ?x with _ => _ end = _ => destruct x
         end; congruence.
Qed.

(** Without a delimiter the first slice is taken at -1. *)
Lemma splitCtrdID_no_delimiter (key : string) :
  Go.Index key "-" = (-1)%Z → splitCtrdID key = Panic.
Proof. intros H. unfold splitCtrdID. by rewrite H. Qed.

Lemma abc_not_wellFormed : ¬ wellFormedKey "abc".
Proof.
  intros (l & r & H & _).
  do 3 (destruct l as [|? l]; simpl in H; [discriminate H|];
        injection H as _ H).
  destruct l; discriminate H.
Qed.

Lemma ab_cd_not_wellFormed : ¬ wellFormedKey "ab-cd".
Proof.
  intros (l & r & H & Hl & _).
  destruct l as [|a l]; simpl in H; [discriminate H|]. injection H as <- H.
  destruct l as [|b l]; simpl in H; [discriminate H|]. injection H as <- H.
  destruct l as [|c l]; simpl in H; [by vm_compute in Hl|]. injection H as <- H.
  destruct l as [|d l]; simpl in H; [discriminate H|]. injection H as <- H.
  destruct l as [|d' l]; simpl in H; [discriminate H|]. injection H as <- H.
  destruct l; discriminate H.
Qed.

(** C5: keys that are not two 32-digit hex groups around one delimiter and
    for which [splitCtrdID] does not return InvalidArgument: without a
    delimiter the slice [ctrdID[:idx]] is taken at -1 and panics; short
    groups are decoded and zero-padded. *)
Theorem splitCtrdID_malformed_keys :
  (¬ wellFormedKey "abc" ∧ splitCtrdID "abc" = Panic) ∧
  (¬ wellFormedKey "ab-cd" ∧
   splitCtrdID "ab-cd" = Ret (xab :: repeat x00 15, xcd :: repeat x00 15)).
Proof.
  split; split.
  - exact abc_not_wellFormed.
  - reflexivity.
  - exact ab_cd_not_wellFormed.
  - reflexivity.
Qed.

End IdentityScheme.

(** ** Container lifecycle *)

Section Lifecycle.

Implicit Types (st : Backend) (ctr : container) (key : string).

Lemma deleteCtrdTask_absent st key :
  tasks st !! key = None → deleteCtrdTask st (Some key) = (Ret tt, st).
Proof. intros H. unfold deleteCtrdTask, ctrd.Task. by rewrite H. Qed.

Lemma deleteCtrdTask_stopped st key :
  tasks st !! key = Some Stopped →
  deleteCtrdTask st (Some key) = (Ret tt, set_tasks st (delete key (tasks st))).
Proof.
  intros H. unfold deleteCtrdTask, ctrd.Task, ctrd.Status, ctrd.TaskDelete.
  repeat (rewrite H; simpl). done.
Qed.

(** Whatever the state of its task, the task of a container is gone after
    [deleteCtrdTask], and nothing else has changed. *)
Lemma deleteCtrdTask_removes st key :
  deleteCtrdTask st (Some key) = (Ret tt, set_tasks st (delete key (tasks st))).
Proof.
  destruct (tasks st !! key) as [s|] eqn:H.
  - unfold deleteCtrdTask, ctrd.Task, ctrd.Status, ctrd.Wait, ctrd.Kill, ctrd.TaskDelete.
    rewrite H.
    destruct s; repeat (rewrite ?H, ?lookup_insert_eq; simpl);
      unfold set_tasks; simpl; by rewrite ?delete_insert_eq.
  - rewrite deleteCtrdTask_absent by done.
    rewrite delete_id by done. by destruct st.
Qed.

Lemma deleteCtrdContainer_removes st key domain id :
  is_Some (containers st !! key) →
  deleteCtrdContainer st (Some key) domain id false = (Ret tt, withoutContainer st key).
Proof.
  intros [c Hc]. unfold deleteCtrdContainer.
  rewrite deleteCtrdTask_removes. unfold ctrd.ContainerDelete. simpl.
  by rewrite lookup_delete_eq, Hc.
Qed.

Lemma deleteCtrdContainer_absent st key domain id purge :
  containers st !! key = None → tasks st !! key = None →
  deleteCtrdContainer st (Some key) domain id purge = (Fail (ErrBackend CtrdNotFound), st).
Proof.
  intros Hc Ht. unfold deleteCtrdContainer.
  rewrite deleteCtrdTask_absent by done. unfold ctrd.ContainerDelete.
  by rewrite Ht, Hc.
Qed.

(** C1: a container stored under the key with a generation label that
    decodes to g1 makes [getContainer] for another generation g2 return
    NotFound and leaves the daemon's content as it was. *)
Theorem getContainer_stale_generation st domain id (g1 g2 : Bytes16) :
  is_Some (containers st !! composeCtrdID domain id) →
  getGeneration st (composeCtrdID domain id) = Ret g1 →
  g1 ≠ g2 →
  getContainer st domain id g2
  = (Fail (NotFound "container" (composeCtrdID domain id)), st).
Proof.
  intros [c Hc] Hg Hne. unfold getContainer, ctrd.LoadContainer.
  rewrite Hc, Hg. by rewrite decide_True.
Qed.

Lemma getContainer_stale_generation_witness :
  getContainer
    (Sample.backend (createLabels (Sample.ctr Sample.gen1 None)) None Sample.started)
    Sample.dom Sample.cid Sample.gen2
  = (Fail (NotFound "container" Sample.key),
     Sample.backend (createLabels (Sample.ctr Sample.gen1 None)) None Sample.started).
Proof.
  apply (getContainer_stale_generation _ Sample.dom Sample.cid Sample.gen1 Sample.gen2).
  - vm_compute. eauto.
  - vm_compute. reflexivity.
  - vm_compute. discriminate.
Defined.

(** C2, as stated, fails on a container that carries the expected
    generation label but no uid label: [getUID] is asked before the active
    snapshot is, its error is returned, and the container stays. *)
Lemma getContainer_unreadable_uid_kept :
  let st := Sample.backend
              {[ containerdGenerationLabel := hex.EncodeToString Sample.gen1 ]}
              (Some Running) Sample.started in
  getGeneration st Sample.key = Ret Sample.gen1 ∧
  getActiveSnapshot st Sample.dom Sample.cid = Fail (NotFound "snapshot" Sample.key) ∧
  getContainer st Sample.dom Sample.cid Sample.gen1
  = (Fail (RuntimeError "invalid uid label: ''"), st) ∧
  is_Some (containers st !! Sample.key).
Proof.
  cbv zeta. split_and!.
  - vm_compute. reflexivity.
  - vm_compute. reflexivity.
  - vm_compute. reflexivity.
  - vm_compute. eauto.
Qed.

(** C2 (amended): a container with a matching generation label and a
    readable uid label but no active snapshot is torn down by
    [getContainer]: its task and its object are deleted, the snapshot store
    is left as it is, NotFound is returned and no container remains under
    the key. *)
Theorem getContainer_missing_snapshot st domain id (generation : Bytes16) (uid : N)
    (e : Error) :
  getGeneration st (composeCtrdID domain id) = Ret generation →
  getUID st (composeCtrdID domain id) = Ret uid →
  getActiveSnapshot st domain id = Fail e →
  IsErrNotFound e = true →
  getContainer st domain id generation
  = (Fail (NotFound "container" (composeCtrdID domain id)),
     withoutContainer st (composeCtrdID domain id))
  ∧ containers (withoutContainer st (composeCtrdID domain id))
      !! composeCtrdID domain id = None
  ∧ tasks (withoutContainer st (composeCtrdID domain id))
      !! composeCtrdID domain id = None
  ∧ snapshots (withoutContainer st (composeCtrdID domain id)) = snapshots st
  ∧ active (withoutContainer st (composeCtrdID domain id)) = active st.
Proof.
  intros Hg Hu Hs He.
  assert (is_Some (containers st !! composeCtrdID domain id)) as Hc.
  { unfold getGeneration, ctrd.Labels in Hg.
    destruct (containers st !! composeCtrdID domain id); [eauto | discriminate]. }
  split_and!; [| apply lookup_delete_eq | apply lookup_delete_eq | done | done].
  unfold getContainer, ctrd.LoadContainer.
  destruct Hc as [c Hc]. rewrite Hc, Hg.
  rewrite decide_False by (intros Hn; by apply Hn).
  rewrite Hu, Hs, He.
  by rewrite deleteCtrdContainer_removes by eauto.
Qed.

Lemma getContainer_missing_snapshot_witness :
  let st := Sample.backend (createLabels (Sample.ctr Sample.gen1 None))
              (Some Running) Sample.started in
  getContainer st Sample.dom Sample.cid Sample.gen1
  = (Fail (NotFound "container" Sample.key), withoutContainer st Sample.key)
  ∧ containers (withoutContainer st Sample.key) !! Sample.key = None
  ∧ tasks (withoutContainer st Sample.key) !! Sample.key = None
  ∧ snapshots (withoutContainer st Sample.key) = snapshots st
  ∧ active (withoutContainer st Sample.key) = active st.
Proof.
  cbv zeta.
  apply (getContainer_missing_snapshot _ Sample.dom Sample.cid Sample.gen1 1000
           (NotFound "snapshot" Sample.key)).
  - vm_compute. reflexivity.
  - vm_compute. reflexivity.
  - vm_compute. reflexivity.
  - reflexivity.
Defined.

(** C3: with a container stored under the key, [Create] fails with
    AlreadyExists and leaves the daemon as it was when the stored generation
    label is that of the container value; otherwise it first deletes the
    stored container's task and object (the snapshot store stays) and then
    creates a new object that carries exactly the generation label and the
    uid label of the container value. *)
Theorem Create_over_existing st ctr (c : CtrdContainer) :
  containers st !! composeCtrdID (c_domain ctr) (c_id ctr) = Some c →
  let key := composeCtrdID (c_domain ctr) (c_id ctr) in
  let gen := hex.EncodeToString (c_generation ctr) in
  (label (ctrLabels c) containerdGenerationLabel = gen →
   Create st ctr
   = (Fail (AlreadyExists "container" key), set_ctrdContainer ctr (Some key), st))
  ∧
  (label (ctrLabels c) containerdGenerationLabel ≠ gen →
   ∃ ctr' c',
     deleteCtrdContainer st (Some key) (c_domain ctr) (c_id ctr) false
     = (Ret tt, withoutContainer st key)
     ∧ Create st ctr
       = (Ret tt, ctr',
          set_containers (withoutContainer st key)
            (<[key := c']> (containers (withoutContainer st key))))
     ∧ ctrLabels c' = createLabels ctr
     ∧ ctrLabels c' !! containerdGenerationLabel = Some gen
     ∧ ctrLabels c' !! containerdUIDLabel = Some (strconv.FormatUint (c_uid ctr))
     ∧ ctrImage c' = c_image ctr
     ∧ c_ctrdContainer ctr' = Some key
     ∧ snapshots (withoutContainer st key) = snapshots st
     ∧ active (withoutContainer st key) = active st).
Proof.
  intros Hc key gen. unfold Create, ctrd.LoadContainer, ctrd.Labels.
  fold key in Hc |- *. fold gen.
  rewrite Hc; cbv beta iota. rewrite Hc; cbv beta iota. split.
  - intros Hl. rewrite Hl. by rewrite (proj2 (String.eqb_eq _ _) eq_refl).
  - intros Hl. rewrite (proj2 (String.eqb_neq _ _) Hl).
    rewrite deleteCtrdContainer_removes by (rewrite Hc; eauto).
    unfold Config, ctrd.NewContainer. cbv beta iota.
    replace (containers (withoutContainer st key) !! key)
      with (@None CtrdContainer) by (symmetry; apply lookup_delete_eq).
    eexists _, _. split_and!; reflexivity.
Qed.

Lemma Create_over_existing_witness :
  let st := Sample.backend (createLabels (Sample.ctr Sample.gen1 None))
              (Some Running) Sample.started in
  let ctr := Sample.ctr Sample.gen2 None in
  ∃ ctr' c',
    Create st ctr
    = (Ret tt, ctr',
       set_containers (withoutContainer st Sample.key)
         (<[Sample.key := c']> (containers (withoutContainer st Sample.key))))
    ∧ ctrLabels c' = createLabels ctr.
Proof.
  cbv zeta.
  destruct (Create_over_existing
              (Sample.backend (createLabels (Sample.ctr Sample.gen1 None))
                 (Some Running) Sample.started)
              (Sample.ctr Sample.gen2 None)
              {| ctrLabels := createLabels (Sample.ctr Sample.gen1 None);
                 ctrImage := Sample.img; ctrSpec := Sample.spec |}
              ltac:(vm_compute; reflexivity)) as [_ H].
  destruct H as (ctr' & c' & _ & HC & HL & _).
  - vm_compute. discriminate.
  - exists ctr', c'. split; [exact HC | exact HL].
Defined.

(** C6, as stated, fails: the second of two [Delete] calls in a row finds no
    container object and returns the daemon's not-found error. *)
Lemma Delete_twice_second_fails :
  let st := Sample.backend (createLabels (Sample.ctr Sample.gen1 None))
              (Some Running) Sample.started in
  let ctr := Sample.ctr Sample.gen1 (Some Sample.key) in
  Delete st ctr = (Ret tt, withoutContainer st Sample.key)
  ∧ Delete (withoutContainer st Sample.key) ctr
    = (Fail (ErrBackend CtrdNotFound), withoutContainer st Sample.key).
Proof. cbv zeta. split; vm_compute; reflexivity. Qed.

(** C6 (amended): deleting a task that is absent is a no-op that succeeds
    and deleting one that has stopped succeeds; a [Delete] of a container
    whose object is absent returns the daemon's not-found error and changes
    nothing, which is what the second of two [Delete] calls in a row gets. *)
Theorem Delete_twice st ctr key :
  c_ctrdContainer ctr = Some key →
  (tasks st !! key = None → deleteCtrdTask st (Some key) = (Ret tt, st))
  ∧ (tasks st !! key = Some Stopped →
     deleteCtrdTask st (Some key) = (Ret tt, set_tasks st (delete key (tasks st))))
  ∧ (containers st !! key = None → tasks st !! key = None →
     Delete st ctr = (Fail (ErrBackend CtrdNotFound), st))
  ∧ (is_Some (containers st !! key) →
     Delete st ctr = (Ret tt, withoutContainer st key)
     ∧ Delete (withoutContainer st key) ctr
       = (Fail (ErrBackend CtrdNotFound), withoutContainer st key)).
Proof.
  intros Hh. split_and!.
  - apply deleteCtrdTask_absent.
  - apply deleteCtrdTask_stopped.
  - intros Hc Ht. unfold Delete. rewrite Hh.
    by apply deleteCtrdContainer_absent.
  - intros Hc. unfold Delete. rewrite Hh. split.
    + by apply deleteCtrdContainer_removes.
    + apply deleteCtrdContainer_absent; apply lookup_delete_eq.
Qed.

Lemma Delete_twice_witness :
  let st := Sample.backend (createLabels (Sample.ctr Sample.gen1 None))
              (Some Stopped) Sample.started in
  let ctr := Sample.ctr Sample.gen1 (Some Sample.key) in
  deleteCtrdTask st (Some Sample.key)
  = (Ret tt, set_tasks st (delete Sample.key (tasks st)))
  ∧ Delete st ctr = (Ret tt, withoutContainer st Sample.key)
  ∧ Delete (withoutContainer st Sample.key) ctr
    = (Fail (ErrBackend CtrdNotFound), withoutContainer st Sample.key).
Proof.
  cbv zeta.
  destruct (Delete_twice
              (Sample.backend (createLabels (Sample.ctr Sample.gen1 None))
                 (Some Stopped) Sample.started)
              (Sample.ctr Sample.gen1 (Some Sample.key)) Sample.key eq_refl)
    as (_ & Hs & _ & Hd).
  split; [apply Hs; vm_compute; reflexivity|].
  apply Hd. vm_compute. eauto.
Defined.

(** C7: when the start of the process fails, [Exec] returns NotFound for
    the command exactly when the daemon's error is NOT a not-found; a
    not-found of the start call becomes a generic runtime error. *)
Theorem Exec_start_failure st ctr (stream : Stream) (execID : string)
    (procSpec : Process) key (e : CtrdError) (cmd : string) (rest : list string) :
  c_ctrdContainer ctr = Some key →
  is_Some (tasks st !! key) →
  startError st procSpec = Some e →
  Args procSpec = cmd :: rest →
  Exec st ctr stream execID procSpec
  = (if IsNotFound e then Fail (RuntimeError "starting process failed")
     else Fail (NotFound "command" cmd), ctr, st).
Proof.
  intros Hh [s Ht] He Ha. unfold Exec, ctrd.Task, ctrd.Exec, ctrd.Start.
  rewrite Hh, Ht. cbv beta iota. rewrite Ht, He, Ha. by destruct e.
Qed.

Lemma Exec_start_failure_witness :
  let missing : Process -> option CtrdError := fun _ => Some CtrdNotFound in
  let st := Sample.backend (createLabels (Sample.ctr Sample.gen1 None))
              (Some Running) missing in
  let ctr := Sample.ctr Sample.gen1 (Some Sample.key) in
  Exec st ctr {| Terminal := true |} "exec-1" {| Args := ["nosuch"]; Cwd := "/" |}
  = (Fail (RuntimeError "starting process failed"), ctr, st).
Proof.
  cbv zeta.
  apply (Exec_start_failure _ _ _ _ _ Sample.key CtrdNotFound "nosuch" []).
  - reflexivity.
  - vm_compute. eauto.
  - reflexivity.
  - reflexivity.
Defined.

Example Exec_other_failure_is_command_not_found :
  let denied : Process -> option CtrdError := fun _ => Some CtrdUnknown in
  let st := Sample.backend (createLabels (Sample.ctr Sample.gen1 None))
              (Some Running) denied in
  let ctr := Sample.ctr Sample.gen1 (Some Sample.key) in
  Exec st ctr {| Terminal := true |} "exec-1" {| Args := ["/bin/sh"]; Cwd := "/" |}
  = (Fail (NotFound "command" "/bin/sh"), ctr, st).
Proof. vm_compute. reflexivity. Qed.

Lemma union_insert_lookup_ne (L : gmap string string) (k l v : string) :
  l ≠ k → (<[k := v]> L ∪ L) !! l = L !! l.
Proof.
  intros Hne. rewrite lookup_union, lookup_insert_ne by done.
  by destruct (L !! l).
Qed.

Lemma union_insert_lookup_eq (L : gmap string string) (k v : string) :
  (<[k := v]> L ∪ L) !! k = Some v.
Proof.
  rewrite lookup_union, lookup_insert_eq. by destruct (L !! k).
Qed.

(** C9: [Commit] leaves the in-memory container as it is (so [Generation]
    still reports the old value), leaves tasks and snapshots alone, touches
    no container object other than its own, and on its own object changes
    nothing but the generation label: image, spec and every other label, the
    uid label among them, are as before.  When the object exists the call
    succeeds and the generation label is the hex of the new generation. *)
Theorem Commit_frame st ctr (gen : Bytes16) :
  (Commit st ctr gen).1.2 = ctr
  ∧ Generation (Commit st ctr gen).1.2 = Generation ctr
  ∧ tasks (Commit st ctr gen).2 = tasks st
  ∧ snapshots (Commit st ctr gen).2 = snapshots st
  ∧ active (Commit st ctr gen).2 = active st
  ∧ (∀ k, c_ctrdContainer ctr ≠ Some k →
          containers (Commit st ctr gen).2 !! k = containers st !! k)
  ∧ (∀ k, containers st !! k = None → containers (Commit st ctr gen).2 !! k = None)
  ∧ (∀ k c, containers st !! k = Some c →
       ∃ c', containers (Commit st ctr gen).2 !! k = Some c'
             ∧ ctrImage c' = ctrImage c
             ∧ ctrSpec c' = ctrSpec c
             ∧ ctrLabels c' !! containerdUIDLabel = ctrLabels c !! containerdUIDLabel
             ∧ ∀ l, l ≠ containerdGenerationLabel → ctrLabels c' !! l = ctrLabels c !! l)
  ∧ (∀ k c, c_ctrdContainer ctr = Some k → containers st !! k = Some c →
       (Commit st ctr gen).1.1 = Ret tt
       ∧ ∃ c', containers (Commit st ctr gen).2 !! k = Some c'
               ∧ ctrLabels c' !! containerdGenerationLabel
                 = Some (hex.EncodeToString gen)).
Proof.
  unfold Commit, ctrd.Labels, ctrd.SetLabels, Generation.
  destruct (c_ctrdContainer ctr) as [h|] eqn:Hh; cbn [fst snd].
  2: { split_and!; try done. intros k c Hk. exists c. by rewrite Hk. }
  destruct (containers st !! h) as [r|] eqn:Hr; cbn [fst snd].
  2: { split_and!; try done.
       - intros k c Hk. exists c. by rewrite Hk.
       - intros k c [= ->] Hk. congruence. }
  cbn [fst snd set_containers containers tasks snapshots active].
  split_and!; try done.
  - intros k Hk. rewrite lookup_insert_ne; [done | congruence].
  - intros k Hk. rewrite lookup_insert_ne; [done | congruence].
  - intros k c Hk. destruct (decide (h = k)) as [->|Hne].
    + rewrite lookup_insert_eq. eexists. split; [reflexivity|].
      assert (c = r) as -> by congruence. cbn [ctrImage ctrSpec ctrLabels].
      split_and!; try done.
      * by apply union_insert_lookup_ne.
      * intros l Hl. by apply union_insert_lookup_ne.
    + rewrite lookup_insert_ne by done. exists c. by rewrite Hk.
  - intros k c [= <-] Hk. split; [done|].
    rewrite lookup_insert_eq. eexists. split; [reflexivity|].
    cbn [ctrLabels]. apply union_insert_lookup_eq.
Qed.

Example Commit_sample :
  let st := Sample.backend (createLabels (Sample.ctr Sample.gen1 None))
              None Sample.started in
  let ctr := Sample.ctr Sample.gen1 (Some Sample.key) in
  (Commit st ctr Sample.gen2).1 = (Ret tt, ctr)
  ∧ getGeneration (Commit st ctr Sample.gen2).2 Sample.key = Ret Sample.gen2
  ∧ getUID (Commit st ctr Sample.gen2).2 Sample.key = Ret 1000%N
  ∧ Generation ctr = Sample.gen1.
Proof. cbv zeta. split_and!; vm_compute; reflexivity. Qed.

End Lifecycle.

(** ** Snapshot enumeration *)

Section SnapshotEnumeration.

Implicit Types (m : gmap string SnapInfo) (P : gmap string bool) (l : list SnapInfo).

Lemma walked_empty : walked (∅, ∅) [].
Proof.
  split_and!; simpl.
  - intros p b H. by rewrite lookup_empty in H.
  - intros i H. by apply elem_of_nil in H.
  - intros n info H. by rewrite lookup_empty in H.
  - intros i H. by apply elem_of_nil in H.
Qed.

Lemma walked_step acc seen info :
  walked acc seen → walked (walkFn acc info) (seen ++ [info]).
Proof.
  destruct acc as [m P]. intros (HP1 & HP2 & Hm1 & Hm2). unfold walkFn.
  split_and!; cbn [fst snd].
  - intros p b. destruct (String.eqb_spec (Parent info) "") as [He|He]; cbn [negb].
    + intros H. destruct (HP1 _ _ H) as (? & ? & i & Hi & ?).
      split_and!; [done..|]. exists i. split; [|done].
      apply elem_of_app. by left.
    + intros H. destruct (decide (Parent info = p)) as [<-|Hne].
      * rewrite lookup_insert_eq in H. injection H as <-.
        split_and!; [done..|]. exists info. split; [|done].
        apply elem_of_app. right. by apply list_elem_of_singleton.
      * rewrite lookup_insert_ne in H by done.
        destruct (HP1 _ _ H) as (? & ? & i & Hi & ?).
        split_and!; [done..|]. exists i. split; [|done].
        apply elem_of_app. by left.
  - intros i Hi Hne. apply elem_of_app in Hi as [Hi|Hi].
    + specialize (HP2 i Hi Hne).
      destruct (String.eqb_spec (Parent info) ""); cbn [negb]; [done|].
      destruct (decide (Parent info = Parent i)) as [->|?];
        [by rewrite lookup_insert_eq | by rewrite lookup_insert_ne].
    + apply list_elem_of_singleton in Hi as ->.
      destruct (String.eqb_spec (Parent info) ""); cbn [negb]; [done|].
      by rewrite lookup_insert_eq.
  - intros n i.
    destruct (negb (default false (P !! Name info))).
    + destruct (decide (Name info = n)) as [<-|Hne].
      * rewrite lookup_insert_eq. intros [= <-]. split; [done|].
        apply elem_of_app. right. by apply list_elem_of_singleton.
      * rewrite lookup_insert_ne by done. intros H.
        destruct (Hm1 _ _ H). split; [done|]. apply elem_of_app. by left.
    + intros H. destruct (Hm1 _ _ H). split; [done|]. apply elem_of_app. by left.
  - intros i Hi Hleaf.
    assert (∀ X : is_Some (m !! Name i),
              is_Some ((if negb (default false (P !! Name info))
                        then <[Name info := info]> m else m) !! Name i)) as Hkeep.
    { intros X. destruct (negb (default false (P !! Name info))); [|done].
      destruct (decide (Name info = Name i)) as [->|?];
        [rewrite lookup_insert_eq; eauto | by rewrite lookup_insert_ne]. }
    apply elem_of_app in Hi as [Hi|Hi].
    + apply Hkeep, Hm2; [done|]. intros j Hj. apply Hleaf.
      apply elem_of_app. by left.
    + apply list_elem_of_singleton in Hi as ->.
      destruct (P !! Name info) as [b|] eqn:HPn; cbn [default negb].
      * destruct (HP1 _ _ HPn) as (-> & Hne & j & Hj & Hpj).
        exfalso. apply Hne. rewrite <- Hpj. apply Hleaf; [|done].
        apply elem_of_app. by left.
      * rewrite lookup_insert_eq. eauto.
Qed.

Lemma walked_fold l acc seen :
  walked acc seen → walked (fold_left walkFn l acc) (seen ++ l).
Proof.
  revert acc seen. induction l as [|info l IH]; intros acc seen H; simpl.
  - by rewrite app_nil_r.
  - replace (seen ++ info :: l)%list with ((seen ++ [info]) ++ l)%list
      by (by rewrite <- app_assoc).
    apply IH. by apply walked_step.
Qed.

Lemma dropKeys_lookup m (ks : list string) n :
  foldr (fun p m' => if bool_decide (is_Some (m' !! p)) then delete p m' else m') m ks
    !! n
  = if bool_decide (n ∈ ks) then None else m !! n.
Proof.
  induction ks as [|k ks IH]; cbn [foldr].
  - case_bool_decide as H; [by apply elem_of_nil in H | done].
  - set (m' := foldr _ m ks) in *.
    destruct (decide (k = n)) as [->|Hne].
    + rewrite (bool_decide_eq_true_2 (n ∈ n :: ks)) by apply list_elem_of_here.
      destruct (bool_decide (is_Some (m' !! n))) eqn:Hs; [apply lookup_delete_eq|].
      apply bool_decide_eq_false in Hs.
      destruct (m' !! n) eqn:E; [|done]. exfalso. apply Hs. eauto.
    + assert ((if bool_decide (is_Some (m' !! k)) then delete k m' else m') !! n
              = m' !! n) as ->.
      { destruct (bool_decide (is_Some (m' !! k)));
          [by rewrite lookup_delete_ne | done]. }
      rewrite IH. rewrite (bool_decide_ext (n ∈ k :: ks) (n ∈ ks)); [done|].
      rewrite elem_of_cons. split; [intros [?|?]; [congruence | done] | by right].
Qed.

Lemma dropParents_lookup m P n :
  dropParents m P !! n = match P !! n with Some _ => None | None => m !! n end.
Proof.
  unfold dropParents. rewrite dropKeys_lookup.
  destruct (P !! n) as [b|] eqn:E.
  - rewrite bool_decide_eq_true_2; [done|].
    apply list_elem_of_fmap. exists (n, b). split; [done|].
    by apply elem_of_map_to_list.
  - rewrite bool_decide_eq_false_2; [done|].
    intros ([k b] & -> & H)%list_elem_of_fmap.
    apply elem_of_map_to_list in H. simpl in E. congruence.
Qed.

(** Whatever the domain asked for, [Snapshots] returns the leaves of the
    whole store: the snapshots that no snapshot names as its parent. *)
Lemma Snapshots_leaves (st : Backend) (domain : Bytes16) :
  ∃ res, Snapshots st domain = Ret res
         ∧ ∀ n, n ∈ Name <$> res ↔ isLeaf (snapshots st) n.
Proof.
  unfold Snapshots.
  pose proof (walked_fold (snapshots st) (∅, ∅) [] walked_empty) as H.
  rewrite app_nil_l in H.
  destruct (fold_left walkFn (snapshots st) (∅, ∅)) as [m P].
  destruct H as (HP1 & HP2 & Hm1 & Hm2). cbn [fst snd] in *.
  eexists. split; [reflexivity|]. intros n. unfold isLeaf. split.
  - intros (info & -> & ([k i] & Hi & Hk)%list_elem_of_fmap)%list_elem_of_fmap.
    simpl in Hi. subst i. apply elem_of_map_to_list in Hk.
    rewrite dropParents_lookup in Hk.
    destruct (P !! k) eqn:HPk; [discriminate|].
    destruct (Hm1 _ _ Hk) as [<- Hin]. split.
    + by apply list_elem_of_fmap_2.
    + intros i Hi Hpar.
      destruct (String.eqb_spec (Parent i) "") as [|Hne]; [done|].
      specialize (HP2 i Hi Hne). congruence.
  - intros [(info & -> & Hin)%list_elem_of_fmap Hleaf].
    destruct (Hm2 info Hin Hleaf) as [info' Hinfo'].
    destruct (Hm1 _ _ Hinfo') as [Hn' _].
    apply list_elem_of_fmap. exists info'. split; [done|].
    apply list_elem_of_fmap. exists (Name info, info'). split; [done|].
    apply elem_of_map_to_list. rewrite dropParents_lookup.
    destruct (P !! Name info) as [b|] eqn:HPn; [|done].
    destruct (HP1 _ _ HPn) as (_ & Hne & j & Hj & Hpj).
    exfalso. apply Hne. rewrite <- Hpj. by apply Hleaf.
Qed.

Lemma Snapshots_any_domain (st : Backend) (d1 d2 : Bytes16) :
  Snapshots st d1 = Snapshots st d2.
Proof. reflexivity. Qed.

Lemma snapB_not_owned : ¬ ownedBy Sample.twoDomains Sample.dom "snap-b".
Proof.
  intros (id & root & Hact & Hin).
  unfold Sample.twoDomains in Hact. cbn [active] in Hact.
  apply lookup_insert_Some in Hact as [[_ <-]|[_ Hact]].
  - vm_compute in Hin.
    repeat (apply elem_of_cons in Hin as [Hin|Hin]; [discriminate|]).
    by apply elem_of_nil in Hin.
  - apply lookup_insert_Some in Hact as [[Hk _]|[_ Hact]].
    + unfold Sample.key2, composeCtrdID in Hk. cbn in Hk. discriminate Hk.
    + by rewrite lookup_empty in Hact.
Qed.

(** C8: asked for the snapshots of [dom], [Snapshots] also lists [snapB],
    the active snapshot of a container of another domain that lies on no
    chain of [dom]: the domain argument takes no part in the result.  The
    parent [base] is left out, as every parent is. *)
Theorem Snapshots_lists_other_domains :
  ¬ ownedBy Sample.twoDomains Sample.dom "snap-b"
  ∧ ownedBy Sample.twoDomains Sample.dom2 "snap-b"
  ∧ ∃ res, Snapshots Sample.twoDomains Sample.dom = Ret res
           ∧ Sample.snapB ∈ res
           ∧ Sample.snapA ∈ res
           ∧ Sample.base ∉ res.
Proof.
  split; [exact snapB_not_owned|]. split.
  - exists Sample.cid, "snap-b". split; vm_compute; [reflexivity|].
    apply list_elem_of_here.
  - eexists. split; [vm_compute; reflexivity|]. split_and!.
    + repeat first [apply list_elem_of_here | apply list_elem_of_further].
    + repeat first [apply list_elem_of_here | apply list_elem_of_further].
    + intros H. repeat (apply elem_of_cons in H as [H|H]; [discriminate|]).
      by apply elem_of_nil in H.
Qed.

End SnapshotEnumeration.

(** ** Progress display *)

Section ProgressDisplay.

Implicit Types (stream : list ProgressStatus) (refs : list string)
  (cached : gmap string ProgressStatus).

Lemma firstSeen_elem refs r : r ∈ firstSeen refs ↔ r ∈ refs.
Proof.
  induction refs as [|a refs IH]; [done|]. cbn [firstSeen].
  rewrite !elem_of_cons, <- IH, !list_elem_of_In, filter_In, negb_true_iff.
  destruct (String.eqb_spec r a) as [->|Hne]; [by split; auto|].
  split; [intros [?|[? _]]; auto | intros [?|?]; auto].
Qed.

Lemma firstSeen_NoDup refs : NoDup (firstSeen refs).
Proof.
  induction refs as [|a refs IH]; cbn [firstSeen]; constructor.
  - rewrite list_elem_of_In, filter_In, negb_true_iff, String.eqb_refl.
    by intros [_ ?].
  - by apply NoDup_ListNoDup, List.NoDup_filter, NoDup_ListNoDup.
Qed.

Lemma firstSeen_snoc refs r :
  firstSeen (refs ++ [r])
  = if bool_decide (r ∈ refs) then firstSeen refs else (firstSeen refs ++ [r])%list.
Proof.
  induction refs as [|a refs IH].
  - cbn. by rewrite bool_decide_eq_false_2 by apply not_elem_of_nil.
  - change (firstSeen ((a :: refs) ++ [r]))
      with (a :: List.filter (fun r' => negb (String.eqb r' a)) (firstSeen (refs ++ [r]))).
    rewrite IH. cbn [firstSeen].
    destruct (decide (r ∈ refs)) as [Hin|Hin].
    + rewrite !bool_decide_eq_true_2; [done | by apply list_elem_of_further | done].
    + rewrite (bool_decide_eq_false_2 (r ∈ refs)) by done.
      rewrite List.filter_app. cbn [List.filter].
      destruct (String.eqb_spec r a) as [->|Hne]; cbn [negb].
      * rewrite bool_decide_eq_true_2 by apply list_elem_of_here.
        by rewrite app_nil_r.
      * rewrite bool_decide_eq_false_2; [done|].
        rewrite elem_of_cons. by intros [?|?].
Qed.

Lemma latestStatus_snoc stream s r :
  latestStatus (stream ++ [s]) r
  = if String.eqb (Reference s) r then Some s else latestStatus stream r.
Proof.
  unfold latestStatus. rewrite List.filter_app. cbn [List.filter].
  destruct (String.eqb (Reference s) r); [apply last_snoc | by rewrite app_nil_r].
Qed.

Lemma latestStatus_None stream r :
  latestStatus stream r = None ↔ r ∉ Reference <$> stream.
Proof.
  unfold latestStatus. rewrite last_None. split.
  - intros Hnil (s & -> & Hs)%list_elem_of_fmap.
    assert (In s (List.filter (fun s' => String.eqb (Reference s') (Reference s)) stream))
      as Hin by (apply filter_In; split; [by apply list_elem_of_In | apply String.eqb_refl]).
    by rewrite Hnil in Hin.
  - intros Hn. destruct (List.filter _ stream) as [|s tl] eqn:E; [done|].
    exfalso. apply Hn.
    assert (In s (s :: tl)) as Hin by (by left). rewrite <- E in Hin.
    apply filter_In in Hin as [Hin Heq]. apply String.eqb_eq in Heq as <-.
    apply list_elem_of_fmap_2. by apply list_elem_of_In.
Qed.

(** The state the loop holds after it has recorded a stream of statuses. *)
Lemma recordStatus_stream stream :
  let acc := fold_left recordStatus stream (∅, []) in
  acc.2 = firstSeen (Reference <$> stream)
  ∧ ∀ r, acc.1 !! r = latestStatus stream r.
Proof.
  induction stream as [|s stream IH] using rev_ind; cbv zeta.
  - split; [done|]. intros r. apply lookup_empty.
  - rewrite fold_left_app. cbn [fold_left].
    destruct (fold_left recordStatus stream (∅, [])) as [cached refs].
    cbv zeta in IH. cbn [fst snd] in IH. destruct IH as [-> Hc].
    unfold recordStatus. cbn [fst snd]. split.
    + rewrite fmap_app. cbn [fmap list_fmap]. rewrite firstSeen_snoc.
      rewrite Hc. destruct (latestStatus stream (Reference s)) eqn:E.
      * rewrite bool_decide_eq_true_2; [done|].
        destruct (decide (Reference s ∈ Reference <$> stream)) as [|Hn]; [done|].
        apply latestStatus_None in Hn. congruence.
      * rewrite bool_decide_eq_false_2; [done|]. by apply latestStatus_None.
    + intros r. rewrite latestStatus_snoc.
      destruct (String.eqb_spec (Reference s) r) as [->|Hne].
      * apply lookup_insert_eq.
      * rewrite lookup_insert_ne by done. apply Hc.
Qed.

Lemma showLoop_state d progress d' outs :
  showLoop d progress = Ret (d', outs) →
  (statCached d', statRefs d')
  = fold_left recordStatus (concat progress) (statCached d, statRefs d)
  ∧ length outs = length progress.
Proof.
  revert d d' outs. induction progress as [|b progress IH]; intros d d' outs; cbn.
  - by intros [= <- <-].
  - unfold showBatch.
    destruct (fold_left recordStatus b (statCached d, statRefs d)) as [cached refs] eqn:E.
    destruct (renderLines cached (ticks d) refs) as [out|]; [|discriminate].
    destruct (showLoop _ progress) as [[d2 outs2]| |] eqn:E2; [|discriminate..].
    intros [= <- <-]. apply IH in E2 as [E2 Hlen]. cbn in E2.
    rewrite fold_left_app, E. split; [done | by rewrite <- Hlen].
Qed.

Lemma showLoop_prefix d progress d' outs k :
  showLoop d progress = Ret (d', outs) →
  ∃ dk, showLoop d (take k progress) = Ret (dk, take k outs).
Proof.
  revert d d' outs k. induction progress as [|b progress IH]; intros d d' outs k; cbn.
  - intros [= <- <-]. exists d. by destruct k.
  - destruct (showBatch d b) as [[d1 out]|] eqn:E; [|discriminate].
    destruct (showLoop d1 progress) as [[d2 outs2]| |] eqn:E2; [|discriminate..].
    intros [= <- <-]. destruct k as [|k]; cbn; [by exists d|].
    rewrite E. destruct (IH _ _ _ k E2) as [dk ->]. by exists dk.
Qed.

(** C10: whenever [showImageProgress] has consumed a sequence of batches,
    it has gone through every prefix of it, and after each prefix the list
    of references is the list of the distinct references received so far in
    the order of their first occurrence (no reference twice, none missing)
    and each of them is mapped to the status received last for it. *)
Theorem showImageProgress_display_state (progress : list (list ProgressStatus))
    (d : Display) (outs : list (list Line)) :
  showImageProgress progress = Ret (d, outs) →
  ∀ k, ∃ dk,
    showImageProgress (take k progress) = Ret (dk, take k outs)
    ∧ statRefs dk = firstSeen (Reference <$> concat (take k progress))
    ∧ NoDup (statRefs dk)
    ∧ (∀ r, r ∈ statRefs dk ↔ ∃ s, s ∈ concat (take k progress) ∧ Reference s = r)
    ∧ (∀ r, statCached dk !! r = latestStatus (concat (take k progress)) r)
    ∧ (∀ r, r ∈ statRefs dk ↔ is_Some (statCached dk !! r)).
Proof.
  unfold showImageProgress. intros H k.
  destruct (showLoop_prefix _ _ _ _ k H) as [dk Hk]. exists dk.
  split; [exact Hk|].
  apply showLoop_state in Hk as [Hk _]. cbn [statCached statRefs] in Hk.
  pose proof (recordStatus_stream (concat (take k progress))) as Hinv.
  cbv zeta in Hinv. rewrite <- Hk in Hinv. cbn [fst snd] in Hinv.
  destruct Hinv as [Hrefs Hcache].
  assert (∀ r, r ∈ statRefs dk ↔ ∃ s, s ∈ concat (take k progress) ∧ Reference s = r)
    as Hmem.
  { intros r. rewrite Hrefs, firstSeen_elem, list_elem_of_fmap.
    split; intros (s & ? & ?); eauto. }
  split_and!; [done | rewrite Hrefs; apply firstSeen_NoDup | done | done |].
  intros r. rewrite Hcache. split.
  - intros Hin. destruct (latestStatus _ r) eqn:E; [eauto|].
    apply latestStatus_None in E. exfalso. apply E.
    apply Hmem in Hin as (s & Hs & <-). by apply list_elem_of_fmap_2.
  - intros [s Hs]. rewrite Hrefs, firstSeen_elem.
    destruct (decide (r ∈ Reference <$> concat (take k progress))) as [|Hn]; [done|].
    apply latestStatus_None in Hn. congruence.
Qed.

Lemma showImageProgress_display_state_witness :
  ∃ dk outs,
    showImageProgress (take 3 Sample.progress) = Ret (dk, outs)
    ∧ statRefs dk = [Sample.refA; Sample.refB; Sample.refC]
    ∧ statCached dk !! Sample.refC = Some (Sample.status Sample.refC "done" 70 70).
Proof.
  assert (∃ d o, showImageProgress Sample.progress = Ret (d, o)) as (d & o & E)
    by (vm_compute; eauto).
  destruct (showImageProgress_display_state _ _ _ E 3) as (dk & Hk & Hr & _ & _ & Hc & _).
  exists dk, (take 3 o). split; [exact Hk|]. split.
  - rewrite Hr. vm_compute. reflexivity.
  - rewrite Hc. vm_compute. reflexivity.
Defined.

Example showImageProgress_short_reference :
  showImageProgress [[Sample.status "layer-1" "running" 0 0]] = Panic.
Proof. vm_compute. reflexivity. Qed.

End ProgressDisplay.

(** * Further properties *)

(** ** Keys and labels *)

Section KeysAndLabels.

Lemma Index_noDash (s : string) : noDash s → Go.Index s "-" = (-1)%Z.
Proof.
  induction s as [|c s IH]; [done|]. intros [Hc Hs].
  cbn [Go.Index String.prefix].
  destruct (ascii_dec "-" c) as [E|_]; [congruence|]. by rewrite IH.
Qed.

Lemma dash_split (s : string) :
  noDash s ∨ ∃ l r, s = l ++ String "-" r ∧ noDash l.
Proof.
  induction s as [|c s IH]; [by left|].
  destruct (ascii_dec c "-") as [->|Hc].
  - right. by exists EmptyString, s.
  - destruct IH as [Hs|(l & r & -> & Hl)]; [by left|].
    right. by exists (String c l), r.
Qed.

Lemma string_app_inj (a a' b b' : string) :
  String.length a = String.length a' → a ++ b = a' ++ b' → a = a' ∧ b = b'.
Proof.
  revert a'. induction a as [|c a IH]; intros [|c' a'] Hlen H; try discriminate.
  - done.
  - injection Hlen as Hlen. injection H as -> H.
    destruct (IH _ Hlen H) as [-> ->]. done.
Qed.

Lemma Encode_inj (x y : list byte) :
  hex.EncodeToString x = hex.EncodeToString y → x = y.
Proof.
  intros H. pose proof (Decode_Encode x) as Hx. rewrite H, Decode_Encode in Hx.
  congruence.
Qed.

(** X1: Two keys composed from different (domain, id) pairs differ, whatever
    the lengths of the values. *)
Theorem composeCtrdID_injective (domain id domain' id' : Bytes16) :
  composeCtrdID domain id = composeCtrdID domain' id' →
  domain = domain' ∧ id = id'.
Proof.
  unfold composeCtrdID. intros H.
  change ("-" ++ hex.EncodeToString id) with (String "-" (hex.EncodeToString id)) in H.
  change ("-" ++ hex.EncodeToString id') with (String "-" (hex.EncodeToString id')) in H.
  pose proof (Index_dash _ (hex.EncodeToString id) (Encode_noDash domain)) as H1.
  pose proof (Index_dash _ (hex.EncodeToString id') (Encode_noDash domain')) as H2.
  rewrite H, H2 in H1. unfold Go.len in H1. apply Nat2Z.inj in H1.
  destruct (string_app_inj _ _ _ _ (eq_sym H1) H) as [Hd Hi].
  injection Hi as Hi. split; by apply Encode_inj.
Qed.

Lemma composeCtrdID_injective_witness :
  Sample.dom = Sample.dom ∧ Sample.cid = Sample.cid.
Proof. apply composeCtrdID_injective. reflexivity. Defined.

(** X2: What [splitCtrdID] does with any key: without a delimiter it panics;
    otherwise only the first delimiter counts, and the text before it and
    the text after it are decoded, each of any even length, and padded with
    zeros or cut to 16 bytes; if either does not decode the error is
    InvalidArgument. *)
Theorem splitCtrdID_cases (key : string) :
  (noDash key ∧ splitCtrdID key = Panic)
  ∨ ∃ l r, key = l ++ "-" ++ r ∧ noDash l
           ∧ splitCtrdID key
             = match hex.DecodeString l, hex.DecodeString r with
               | hex.Decoded bl, hex.Decoded br => Ret (Go.copy16 bl, Go.copy16 br)
               | _, _ =>
                   Fail (InvalidArgument ("container ID is invalid: '" ++ key ++ "'"))
               end.
Proof.
  destruct (dash_split key) as [Hk|(l & r & -> & Hl)].
  - left. split; [done|]. unfold splitCtrdID. by rewrite Index_noDash.
  - right. exists l, r. split; [done|]. split; [done|].
    unfold splitCtrdID. rewrite Index_dash by done.
    unfold Go.slice_to, Go.slice_from, Go.len.
    rewrite string_length_app. cbn [String.length].
    replace ((0 <=? Z.of_nat (String.length l))
             && (Z.of_nat (String.length l)
                 <=? Z.of_nat (String.length l + S (String.length r))))%Z
      with true by (symmetry; apply andb_true_iff; split; apply Z.leb_le; lia).
    rewrite Nat2Z.id, take_app.
    replace ((0 <=? Z.of_nat (String.length l) + 1)
             && (Z.of_nat (String.length l) + 1
                 <=? Z.of_nat (String.length l + S (String.length r))))%Z
      with true by (symmetry; apply andb_true_iff; split; apply Z.leb_le; lia).
    replace (Z.to_nat (Z.of_nat (String.length l) + 1))
      with (S (String.length l)) by lia.
    rewrite drop_app.
    destruct (hex.DecodeString l); [|done]. by destruct (hex.DecodeString r).
Qed.

Lemma digits_acc (d : Decimal.uint) (acc : positive) :
  strconv.digits (DecimalString.NilEmpty.string_of_uint d) (Npos acc)
  = Some (Npos (Pos.of_uint_acc d acc)).
Proof.
  revert acc. induction d; intros acc;
    cbn [DecimalString.NilEmpty.string_of_uint Pos.of_uint_acc]; [done|..];
    match goal with
    | |- strconv.digits (String ?c ?s) ?a = Some (Npos (Pos.of_uint_acc _ ?b)) =>
        change (strconv.digits (String c s) a)
          with (match strconv.digit c with
                | Some k => strconv.digits s (a * 10 + k)%N
                | None => None
                end);
        replace (strconv.digit c) with (Some (Npos b - Npos acc * 10)%N)
          by (vm_compute (strconv.digit c); f_equal; lia);
        replace (Npos acc * 10 + (Npos b - Npos acc * 10))%N with (Npos b) by lia;
        apply IHd
    end.
Qed.

Lemma digits_of_uint (d : Decimal.uint) :
  strconv.digits (DecimalString.NilEmpty.string_of_uint d) 0 = Some (Pos.of_uint d).
Proof.
  induction d; cbn [DecimalString.NilEmpty.string_of_uint strconv.digits Pos.of_uint];
    [done | exact IHd | ..]; apply (digits_acc d 1%positive) || apply digits_acc.
Qed.

Lemma FormatUint_nonempty (n : N) : strconv.FormatUint n ≠ EmptyString.
Proof.
  unfold strconv.FormatUint. destruct n as [|p]; [done|]. cbn [N.to_uint].
  pose proof (DecimalPos.Unsigned.to_uint_nonnil p) as H.
  by destruct (Pos.to_uint p).
Qed.

Lemma digits_FormatUint (n : N) :
  strconv.digits (strconv.FormatUint n) 0 = Some n.
Proof.
  unfold strconv.FormatUint. rewrite digits_of_uint.
  f_equal. apply DecimalN.Unsigned.of_to.
Qed.

(** The decimal form of a number parses back to it when it fits 32 bits,
    and is rejected otherwise. *)
Lemma ParseUint32_FormatUint (n : N) :
  strconv.ParseUint32 (strconv.FormatUint n)
  = if (n <? 2 ^ 32)%N then Some n else None.
Proof.
  unfold strconv.ParseUint32. pose proof (FormatUint_nonempty n) as Hne.
  destruct (strconv.FormatUint n) eqn:E; [done|].
  by rewrite <- E, digits_FormatUint.
Qed.

End KeysAndLabels.

(** ** How the lifecycle operations compose *)

Section LifecycleComposition.

Implicit Types (st : Backend) (ctr : container) (key : string).

(** The spec [Create] stores for a container value. *)
Let storedSpec ctr : Spec :=
  {| SpecProcess := Some (completeProcess (c_spec ctr) (imgConfig (c_image ctr)));
     SpecLinux := SpecLinux (c_spec ctr) |}.

Lemma Create_stored st ctr ctr' st' :
  Create st ctr = (Ret tt, ctr', st') →
  containers st' !! composeCtrdID (c_domain ctr) (c_id ctr)
  = Some {| ctrLabels := createLabels ctr; ctrImage := c_image ctr;
            ctrSpec := storedSpec ctr |}
  ∧ snapshots st' = snapshots st
  ∧ active st' = active st.
Proof.
  unfold Create, ctrd.LoadContainer, ctrd.Labels, Config, ctrd.NewContainer.
  set (key := composeCtrdID (c_domain ctr) (c_id ctr)).
  destruct (containers st !! key) as [c|] eqn:Hc; cbv beta iota.
  - rewrite Hc; cbv beta iota.
    destruct (String.eqb _ _); [discriminate|].
    rewrite deleteCtrdContainer_removes by (rewrite Hc; eauto).
    replace (containers (withoutContainer st key) !! key)
      with (@None CtrdContainer) by (symmetry; apply lookup_delete_eq).
    intros [= <- <-]. split_and!; [apply lookup_insert_eq | done | done].
  - cbn [negb IsNotFound]. rewrite Hc.
    intros [= <- <-]. split_and!; [apply lookup_insert_eq | done | done].
Qed.

Lemma getGeneration_stored st key (r : CtrdContainer) (g : Bytes16) :
  containers st !! key = Some r →
  ctrLabels r !! containerdGenerationLabel = Some (hex.EncodeToString g) →
  length g = 16 →
  getGeneration st key = Ret g.
Proof.
  intros Hr Hl Hlen. unfold getGeneration, ctrd.Labels, label.
  rewrite Hr. cbv beta iota zeta. rewrite Hl. cbn [default from_option]. unfold id.
  by rewrite Decode_Encode, copy16_id.
Qed.

(** X4: A container that [Create] has made is found again by [getContainer]
    under the generation it was created with, once it has an active
    snapshot: the value returned carries the same domain, id, generation
    and uid, and the image and the completed spec that were stored.  Looked
    up under any other generation it is reported as not found. *)
Theorem Create_then_getContainer st ctr ctr' st' (info : SnapInfo) :
  Create st ctr = (Ret tt, ctr', st') →
  length (c_generation ctr) = 16 →
  (c_uid ctr < 2 ^ 32)%N →
  getActiveSnapshot st (c_domain ctr) (c_id ctr) = Ret info →
  getContainer st' (c_domain ctr) (c_id ctr) (c_generation ctr)
  = (Ret (newContainer (composeCtrdID (c_domain ctr) (c_id ctr))
            (c_domain ctr) (c_id ctr) (c_generation ctr) (c_uid ctr)
            (c_image ctr) (storedSpec ctr)), st')
  ∧ ∀ g, g ≠ c_generation ctr →
         getContainer st' (c_domain ctr) (c_id ctr) g
         = (Fail (NotFound "container" (composeCtrdID (c_domain ctr) (c_id ctr))), st').
Proof.
  intros HC Hlen Huid Hsnap.
  destruct (Create_stored _ _ _ _ HC) as (Hst & Hsn & Hac).
  assert (getGeneration st' (composeCtrdID (c_domain ctr) (c_id ctr))
          = Ret (c_generation ctr)) as Hg
    by (eapply getGeneration_stored; [exact Hst | reflexivity | done]).
  split.
  - unfold getContainer, ctrd.LoadContainer. rewrite Hst, Hg.
    rewrite decide_False by (intros Hn; by apply Hn).
    unfold getUID, ctrd.Labels, label. rewrite Hst.
    replace (ctrLabels _ !! containerdUIDLabel)
      with (Some (strconv.FormatUint (c_uid ctr))) by reflexivity.
    cbn [default from_option]. unfold id. rewrite ParseUint32_FormatUint.
    rewrite (proj2 (N.ltb_lt _ _) Huid).
    replace (getActiveSnapshot st' (c_domain ctr) (c_id ctr)) with (Ret info)
      by (rewrite <- Hsnap; unfold getActiveSnapshot; by rewrite Hsn, Hac).
    unfold ctrd.Image, ctrd.GetSpec. by rewrite Hst.
  - intros g Hne. unfold getContainer, ctrd.LoadContainer. rewrite Hst, Hg.
    by rewrite decide_True.
Qed.

Lemma Create_then_getContainer_witness :
  let st := set_snapshots
              {| containers := ∅; tasks := ∅; snapshots := []; active := ∅;
                 startError := Sample.started |}
              [Sample.snapA] {[ Sample.key := "snap-a" ]} in
  let ctr := Sample.ctr Sample.gen1 None in
  ∃ ctr' st',
    Create st ctr = (Ret tt, ctr', st')
    ∧ getContainer st' Sample.dom Sample.cid Sample.gen1
      = (Ret (newContainer Sample.key Sample.dom Sample.cid Sample.gen1 1000
                Sample.img
                {| SpecProcess := Some {| Args := ["/bin/sh"]; Cwd := "/" |};
                   SpecLinux := Some tt |}), st').
Proof.
  cbv zeta.
  destruct (Create
              (set_snapshots
                 {| containers := ∅; tasks := ∅; snapshots := []; active := ∅;
                    startError := Sample.started |}
                 [Sample.snapA] {[ Sample.key := "snap-a" ]})
              (Sample.ctr Sample.gen1 None)) as [[r ctr'] st'] eqn:E.
  assert (r = Ret tt) as -> by (vm_compute in E; congruence).
  exists ctr', st'. split; [reflexivity|].
  apply (Create_then_getContainer _ _ _ _ Sample.snapA E).
  - reflexivity.
  - reflexivity.
  - vm_compute. reflexivity.
Defined.

(** X3: The uid label is read back as the number it was written from: a label
    that is the decimal form of a 32-bit number makes [getUID] return that
    number. *)
Theorem getUID_of_FormatUint st key (r : CtrdContainer) (n : N) :
  containers st !! key = Some r →
  ctrLabels r !! containerdUIDLabel = Some (strconv.FormatUint n) →
  (n < 2 ^ 32)%N →
  getUID st key = Ret n.
Proof.
  intros Hr Hl Hn. unfold getUID, ctrd.Labels, label.
  rewrite Hr. cbv beta iota zeta. rewrite Hl. cbn [default from_option]. unfold id.
  by rewrite ParseUint32_FormatUint, (proj2 (N.ltb_lt _ _) Hn).
Qed.

Lemma getUID_of_FormatUint_witness :
  getUID (Sample.backend (createLabels (Sample.ctr Sample.gen1 None)) None Sample.started)
    Sample.key = Ret 1000%N.
Proof.
  apply (getUID_of_FormatUint _ _
           {| ctrLabels := createLabels (Sample.ctr Sample.gen1 None);
              ctrImage := Sample.img; ctrSpec := Sample.spec |}).
  - vm_compute. reflexivity.
  - vm_compute. reflexivity.
  - reflexivity.
Defined.

Lemma Commit_stored st ctr (g : Bytes16) ctr' st' key :
  c_ctrdContainer ctr = Some key →
  Commit st ctr g = (Ret tt, ctr', st') →
  ∃ r, containers st !! key = Some r
       ∧ st' = set_containers st
                 (<[key := {| ctrLabels :=
                                <[containerdGenerationLabel := hex.EncodeToString g]>
                                  (ctrLabels r) ∪ ctrLabels r;
                              ctrImage := ctrImage r; ctrSpec := ctrSpec r |}]>
                    (containers st)).
Proof.
  intros Hh. unfold Commit, ctrd.Labels, ctrd.SetLabels. rewrite Hh.
  destruct (containers st !! key) as [r|] eqn:Hr; [|discriminate].
  cbv beta iota zeta. intros [= <- <-]. eauto.
Qed.

(** X5: After a successful [Commit(g)] the stored generation reads back as g
    and the uid label reads as before, so a lookup under any generation
    other than g reports not-found.  The container value itself still
    reports its old generation: looked up under that one, when it differs
    from g, the container it stands for is not found. *)
Theorem Commit_then_getContainer st ctr (g : Bytes16) ctr' st' :
  c_ctrdContainer ctr = Some (composeCtrdID (c_domain ctr) (c_id ctr)) →
  Commit st ctr g = (Ret tt, ctr', st') →
  length g = 16 →
  getGeneration st' (composeCtrdID (c_domain ctr) (c_id ctr)) = Ret g
  ∧ getUID st' (composeCtrdID (c_domain ctr) (c_id ctr))
    = getUID st (composeCtrdID (c_domain ctr) (c_id ctr))
  ∧ (∀ g', g' ≠ g →
       getContainer st' (c_domain ctr) (c_id ctr) g'
       = (Fail (NotFound "container" (composeCtrdID (c_domain ctr) (c_id ctr))), st'))
  ∧ (Generation ctr' ≠ g →
       getContainer st' (c_domain ctr') (c_id ctr') (Generation ctr')
       = (Fail (NotFound "container" (composeCtrdID (c_domain ctr) (c_id ctr))), st')).
Proof.
  intros Hh HC Hlen.
  assert (ctr' = ctr) as ->.
  { unfold Commit in HC. rewrite Hh in HC.
    destruct (ctrd.Labels _ _); [congruence|].
    destruct (ctrd.SetLabels _ _ _) as [[?|] ?]; congruence. }
  destruct (Commit_stored _ _ _ _ _ _ Hh HC) as (r & Hr & ->).
  set (key := composeCtrdID (c_domain ctr) (c_id ctr)) in *.
  set (r' := {| ctrLabels := _; ctrImage := ctrImage r; ctrSpec := ctrSpec r |}).
  assert (containers (set_containers st (<[key := r']> (containers st))) !! key
          = Some r') as Hst by apply lookup_insert_eq.
  assert (getGeneration (set_containers st (<[key := r']> (containers st))) key
          = Ret g) as Hg.
  { eapply getGeneration_stored; [exact Hst | | done].
    apply union_insert_lookup_eq. }
  assert (∀ g', g' ≠ g →
            getContainer (set_containers st (<[key := r']> (containers st)))
              (c_domain ctr) (c_id ctr) g'
            = (Fail (NotFound "container" key),
               set_containers st (<[key := r']> (containers st)))) as Hstale.
  { intros g' Hne. unfold getContainer, ctrd.LoadContainer. fold key.
    rewrite Hst, Hg. by rewrite decide_True. }
  split_and!; [done | | done | apply Hstale].
  unfold getUID, ctrd.Labels. rewrite Hst, Hr. cbv beta iota zeta.
  unfold label. cbn [ctrLabels r'].
  by rewrite union_insert_lookup_ne.
Qed.

Lemma Commit_then_getContainer_witness :
  let st := Sample.backend (createLabels (Sample.ctr Sample.gen1 None))
              None Sample.started in
  let ctr := Sample.ctr Sample.gen1 (Some Sample.key) in
  ∃ st', Commit st ctr Sample.gen2 = (Ret tt, ctr, st')
         ∧ getGeneration st' Sample.key = Ret Sample.gen2
         ∧ getContainer st' Sample.dom Sample.cid (Generation ctr)
           = (Fail (NotFound "container" Sample.key), st').
Proof.
  cbv zeta.
  set (st := Sample.backend (createLabels (Sample.ctr Sample.gen1 None))
               None Sample.started).
  set (ctr := Sample.ctr Sample.gen1 (Some Sample.key)).
  assert (Commit st ctr Sample.gen2 = (Ret tt, ctr, (Commit st ctr Sample.gen2).2))
    as E by (vm_compute; reflexivity).
  exists (Commit st ctr Sample.gen2).2. split; [exact E|].
  destruct (Commit_then_getContainer st ctr Sample.gen2 ctr _ eq_refl E eq_refl)
    as (Hg & _ & _ & Hs).
  split; [exact Hg|]. apply Hs. vm_compute. discriminate.
Defined.

Lemma Exec_with_task st ctr (stream : Stream) (execID : string)
    (procSpec : Process) key :
  c_ctrdContainer ctr = Some key →
  is_Some (tasks st !! key) →
  ∃ r, Exec st ctr stream execID procSpec = (r, ctr, st).
Proof.
  intros Hh [s Ht]. unfold Exec, ctrd.Task, ctrd.Exec, ctrd.Start.
  rewrite Hh, Ht. cbv beta iota. rewrite Ht.
  destruct (startError st procSpec) as [e|]; [|eauto].
  destruct (negb (IsNotFound e)); [|eauto].
  destruct (Args procSpec); eauto.
Qed.



(** X7: [Exec] on a container without a task creates one, bound to the mounts
    of the active snapshot, and starts the process in it: afterwards the
    daemon holds a task for the container, in state Created, and nothing
    else has changed.  A further [Exec] leaves that content as it is. *)
Theorem Exec_creates_task_once st ctr (stream : Stream) (execID : string)
    (procSpec : Process) key (mounts : string) :
  c_ctrdContainer ctr = Some key →
  tasks st !! key = None →
  is_Some (containers st !! key) →
  getActiveSnapMounts st (c_domain ctr) (c_id ctr) = Ret mounts →
  startError st procSpec = None →
  Exec st ctr stream execID procSpec
  = (Ret {| p_container := ctr; p_ctrdProc := execID |}, ctr,
     set_tasks st (<[key := Created]> (tasks st)))
  ∧ ∀ stream' execID' procSpec',
      ∃ r, Exec (set_tasks st (<[key := Created]> (tasks st))) ctr
             stream' execID' procSpec'
           = (r, ctr, set_tasks st (<[key := Created]> (tasks st))).
Proof.
  intros Hh Ht [c Hc] Hm Hs. split.
  - unfold Exec, ctrd.Task. rewrite Hh, Ht. cbn [IsNotFound].
    unfold createTask, ctrd.NewTask. rewrite Hm, Hh, Hc, Ht.
    unfold ctrd.Exec, ctrd.Start. cbn [tasks set_tasks startError].
    by rewrite lookup_insert_eq, Hs.
  - intros stream' execID' procSpec'. apply (Exec_with_task _ _ _ _ _ key Hh).
    cbn [tasks set_tasks]. rewrite lookup_insert_eq. eauto.
Qed.

Lemma Exec_creates_task_once_witness :
  let st := set_snapshots
              (Sample.backend (createLabels (Sample.ctr Sample.gen1 None))
                 None Sample.started)
              [Sample.snapA] {[ Sample.key := "snap-a" ]} in
  let ctr := Sample.ctr Sample.gen1 (Some Sample.key) in
  Exec st ctr {| Terminal := true |} "exec-1" {| Args := ["ls"]; Cwd := "/" |}
  = (Ret {| p_container := ctr; p_ctrdProc := "exec-1" |}, ctr,
     set_tasks st (<[Sample.key := Created]> (tasks st))).
Proof.
  cbv zeta.
  apply (Exec_creates_task_once _ _ _ _ _ Sample.key "snap-a").
  - reflexivity.
  - vm_compute. reflexivity.
  - vm_compute. eauto.
  - vm_compute. reflexivity.
  - reflexivity.
Defined.

(** X8: Without a task and without an active snapshot [Exec] creates nothing:
    it returns the generic "failed to get task" error (the not-found of the
    snapshot is not passed on) and leaves daemon and container value as
    they were. *)
Theorem Exec_without_snapshot st ctr (stream : Stream) (execID : string)
    (procSpec : Process) key (e : Error) :
  c_ctrdContainer ctr = Some key →
  tasks st !! key = None →
  getActiveSnapMounts st (c_domain ctr) (c_id ctr) = Fail e →
  Exec st ctr stream execID procSpec
  = (Fail (RuntimeError "failed to get task"), ctr, st).
Proof.
  intros Hh Ht Hm. unfold Exec, ctrd.Task. rewrite Hh, Ht. cbn [IsNotFound].
  unfold createTask. by rewrite Hm.
Qed.

Lemma Exec_without_snapshot_witness :
  let st := Sample.backend (createLabels (Sample.ctr Sample.gen1 None))
              None Sample.started in
  let ctr := Sample.ctr Sample.gen1 (Some Sample.key) in
  Exec st ctr {| Terminal := true |} "exec-1" {| Args := ["ls"]; Cwd := "/" |}
  = (Fail (RuntimeError "failed to get task"), ctr, st).
Proof.
  cbv zeta.
  apply (Exec_without_snapshot _ _ _ _ _ Sample.key (NotFound "snapshot" Sample.key)).
  - reflexivity.
  - vm_compute. reflexivity.
  - vm_compute. reflexivity.
Defined.

(** X9: When the task cannot be created because the daemon no longer holds the
    container object, [Exec] fails and sets the handle of the container
    value to nil; from then on [Exec], [Commit] and [Delete] on that value
    panic, on any daemon content. *)
Theorem Exec_failed_task_creation_drops_handle st ctr (stream : Stream)
    (execID : string) (procSpec : Process) key (mounts : string) :
  c_ctrdContainer ctr = Some key →
  tasks st !! key = None →
  containers st !! key = None →
  getActiveSnapMounts st (c_domain ctr) (c_id ctr) = Ret mounts →
  Exec st ctr stream execID procSpec
  = (Fail (RuntimeError "failed to get task"), set_ctrdContainer ctr None, st)
  ∧ ∀ st2 stream2 execID2 procSpec2 g,
      (Exec st2 (set_ctrdContainer ctr None) stream2 execID2 procSpec2).1.1 = Panic
      ∧ (Commit st2 (set_ctrdContainer ctr None) g).1.1 = Panic
      ∧ (Delete st2 (set_ctrdContainer ctr None)).1 = Panic.
Proof.
  intros Hh Ht Hc Hm. split.
  - unfold Exec, ctrd.Task. rewrite Hh, Ht. cbn [IsNotFound].
    unfold createTask, ctrd.NewTask. rewrite Hm, Hh, Hc.
    by rewrite deleteCtrdContainer_absent.
  - intros. split_and!; reflexivity.
Qed.

Lemma Exec_failed_task_creation_drops_handle_witness :
  let st := set_snapshots
              {| containers := ∅; tasks := ∅; snapshots := []; active := ∅;
                 startError := Sample.started |}
              [Sample.snapA] {[ Sample.key := "snap-a" ]} in
  let ctr := Sample.ctr Sample.gen1 (Some Sample.key) in
  Exec st ctr {| Terminal := true |} "exec-1" {| Args := ["ls"]; Cwd := "/" |}
  = (Fail (RuntimeError "failed to get task"), set_ctrdContainer ctr None, st)
  ∧ (Delete st (set_ctrdContainer ctr None)).1 = Panic.
Proof.
  cbv zeta.
  set (st := set_snapshots
               {| containers := ∅; tasks := ∅; snapshots := []; active := ∅;
                  startError := Sample.started |}
               [Sample.snapA] {[ Sample.key := "snap-a" ]}).
  set (ctr := Sample.ctr Sample.gen1 (Some Sample.key)).
  assert (tasks st !! Sample.key = None) as Ht by (vm_compute; reflexivity).
  assert (containers st !! Sample.key = None) as Hc by (vm_compute; reflexivity).
  assert (getActiveSnapMounts st (c_domain ctr) (c_id ctr) = Ret "snap-a") as Hm
    by (vm_compute; reflexivity).
  destruct (Exec_failed_task_creation_drops_handle st ctr
              {| Terminal := true |} "exec-1" {| Args := ["ls"]; Cwd := "/" |}
              Sample.key "snap-a" eq_refl Ht Hc Hm) as [H1 H2].
  split; [exact H1|].
  apply (H2 st {| Terminal := true |} "exec-2" {| Args := []; Cwd := "/" |} Sample.gen1).
Defined.

(** X10: [deleteContainer] by key: for a key the daemon does not hold it
    returns NotFound and changes nothing; for a key it holds it removes the
    task and the object (without purge the snapshot store stays), after
    which a lookup under any generation and a second [deleteContainer] both
    report NotFound. *)
Theorem deleteContainer_by_key st (domain id : Bytes16) :
  match containers st !! composeCtrdID domain id with
  | None =>
      ∀ purge, deleteContainer st domain id purge
               = (Fail (NotFound "container" (composeCtrdID domain id)), st)
  | Some _ =>
      let st' := withoutContainer st (composeCtrdID domain id) in
      deleteContainer st domain id false = (Ret tt, st')
      ∧ snapshots st' = snapshots st
      ∧ (∀ g, getContainer st' domain id g
              = (Fail (NotFound "container" (composeCtrdID domain id)), st'))
      ∧ (∀ purge, deleteContainer st' domain id purge
                  = (Fail (NotFound "container" (composeCtrdID domain id)), st'))
  end.
Proof.
  destruct (containers st !! composeCtrdID domain id) as [c|] eqn:Hc.
  - cbv zeta. split_and!.
    + unfold deleteContainer, ctrd.LoadContainer. rewrite Hc.
      apply deleteCtrdContainer_removes. eauto.
    + done.
    + intros g. unfold getContainer, ctrd.LoadContainer.
      cbn [withoutContainer set_containers containers]. by rewrite lookup_delete_eq.
    + intros purge. unfold deleteContainer, ctrd.LoadContainer.
      cbn [withoutContainer set_containers containers]. by rewrite lookup_delete_eq.
  - intros purge. unfold deleteContainer, ctrd.LoadContainer. by rewrite Hc.
Qed.

(** X11: A successful [UpdateSpec] replaces the spec of the container's own
    object by the completed spec, which is also the spec the container
    value holds afterwards and has a non-nil process; labels (generation,
    uid) and image of the object, the other objects, tasks and snapshots
    stay as they were. *)
Theorem UpdateSpec_frame st ctr (newSpec : Spec) ctr' st' key :
  c_ctrdContainer ctr = Some key →
  UpdateSpec st ctr newSpec = (Ret tt, ctr', st') →
  ∃ r, containers st !! key = Some r
       ∧ containers st'
         = <[key := {| ctrLabels := ctrLabels r; ctrImage := ctrImage r;
                       ctrSpec := c_spec ctr' |}]> (containers st)
       ∧ is_Some (SpecProcess (c_spec ctr'))
       ∧ SpecLinux (c_spec ctr') = SpecLinux newSpec
       ∧ (SpecLinux newSpec = None →
          SpecProcess newSpec ≠ None → SpecProcess (c_spec ctr') = SpecProcess newSpec)
       ∧ tasks st' = tasks st
       ∧ snapshots st' = snapshots st
       ∧ active st' = active st
       ∧ c_generation ctr' = c_generation ctr
       ∧ c_ctrdContainer ctr' = Some key.
Proof.
  intros Hh. unfold UpdateSpec, Config, ctrdUpdate. rewrite Hh.
  destruct (containers st !! key) as [r|] eqn:Hr; [|discriminate].
  intros [= <- <-]. exists r. cbn [set_spec c_spec set_containers containers tasks
    snapshots active c_generation c_ctrdContainer SpecProcess SpecLinux].
  split_and!; try done.
  intros HL HP. unfold completeProcess. rewrite HL.
  by destruct (SpecProcess newSpec).
Qed.

Lemma UpdateSpec_frame_witness :
  let st := Sample.backend (createLabels (Sample.ctr Sample.gen1 None))
              None Sample.started in
  let ctr := Sample.ctr Sample.gen1 (Some Sample.key) in
  let newSpec := {| SpecProcess := Some {| Args := ["make"]; Cwd := "/src" |};
                    SpecLinux := None |} in
  ∃ r, containers st !! Sample.key = Some r
       ∧ containers (UpdateSpec st ctr newSpec).2
         = <[Sample.key := {| ctrLabels := ctrLabels r; ctrImage := ctrImage r;
                              ctrSpec := newSpec |}]> (containers st).
Proof.
  cbv zeta.
  set (st := Sample.backend (createLabels (Sample.ctr Sample.gen1 None))
               None Sample.started).
  set (ctr := Sample.ctr Sample.gen1 (Some Sample.key)).
  set (newSpec := {| SpecProcess := Some {| Args := ["make"]; Cwd := "/src" |};
                     SpecLinux := None |}).
  assert (UpdateSpec st ctr newSpec
          = (Ret tt, (UpdateSpec st ctr newSpec).1.2, (UpdateSpec st ctr newSpec).2))
    as E by (vm_compute; reflexivity).
  destruct (UpdateSpec_frame st ctr newSpec _ _ Sample.key eq_refl E)
    as (r & Hr & Hc & _).
  exists r. split; [exact Hr|]. exact Hc.
Defined.

End LifecycleComposition.

(** ** Listing containers *)

Section Listing.

Implicit Types (st : Backend) (ctr : container) (keys : list string).

Lemma elem_of_ctrdContainers st k :
  k ∈ ctrdContainers st ↔ is_Some (containers st !! k).
Proof.
  unfold ctrdContainers. rewrite list_elem_of_fmap. split.
  - intros ([k' r] & -> & H). apply elem_of_map_to_list in H. eauto.
  - intros [r H]. exists (k, r). split; [done|]. by apply elem_of_map_to_list.
Qed.

Lemma getContainersLoop_spec st (hasDomain : bool) (domain : Bytes16) keys
    (acc l : list container) :
  (∀ k, k ∈ keys → is_Some (containers st !! k)) →
  getContainersLoop st hasDomain domain keys acc = Ret l →
  (∀ k, k ∈ keys → ∃ d i, splitCtrdID k = Ret (d, i))
  ∧ ∀ ctr, ctr ∈ l ↔ ctr ∈ acc ∨ ∃ k, k ∈ keys ∧ listedAs st hasDomain domain k ctr.
Proof.
  revert acc. induction keys as [|k keys IH]; intros acc Hin; cbn [getContainersLoop].
  - intros [= <-]. split; [intros k Hk; by apply elem_of_nil in Hk|].
    intros ctr. split; [by left|]. intros [?|(k & Hk & _)]; [done|].
    by apply elem_of_nil in Hk.
  - assert (∀ k', k' ∈ keys → is_Some (containers st !! k')) as Hin'
      by (intros k' Hk'; apply Hin; by right).
    destruct (Hin k) as [r Hr]; [by left|].
    destruct (splitCtrdID k) as [[d i]| |] eqn:Hsp; [|discriminate..].
    assert (∀ ctr, ¬ listedAs st hasDomain domain k ctr →
              ((∃ k', k' ∈ k :: keys ∧ listedAs st hasDomain domain k' ctr)
               ↔ ∃ k', k' ∈ keys ∧ listedAs st hasDomain domain k' ctr)) as Hskip.
    { intros ctr Hn. split; intros (k' & Hk' & Hl).
      - apply elem_of_cons in Hk' as [->|Hk']; [done | eauto].
      - exists k'. split; [by right | done]. }
    assert ((∀ k', k' ∈ keys → ∃ d i, splitCtrdID k' = Ret (d, i)) →
            ∀ k', k' ∈ k :: keys → ∃ d i, splitCtrdID k' = Ret (d, i)) as Hall.
    { intros H k' Hk'. apply elem_of_cons in Hk' as [->|Hk']; eauto. }
    destruct (hasDomain && bool_decide (d ≠ domain)) eqn:Hf.
    { intros HL. destruct (IH _ Hin' HL) as [H1 H2]. split; [by apply Hall|].
      intros ctr. rewrite H2, Hskip; [done|].
      intros (r' & d' & i' & gen & uid & _ & Hsp' & Hd & _).
      apply andb_true_iff in Hf as [-> Hne]. apply bool_decide_eq_true in Hne.
      rewrite Hsp in Hsp'. injection Hsp' as <- <-. by apply Hne, Hd. }
    destruct (getGeneration st k) as [gen| |] eqn:Hg; [| |discriminate].
    2: { intros HL. destruct (IH _ Hin' HL) as [H1 H2]. split; [by apply Hall|].
         intros ctr. rewrite H2, Hskip; [done|].
         intros (r' & d' & i' & gen & uid & _ & _ & _ & Hg' & _). congruence. }
    destruct (getUID st k) as [uid| |] eqn:Hu; [| |discriminate].
    2: { intros HL. destruct (IH _ Hin' HL) as [H1 H2]. split; [by apply Hall|].
         intros ctr. rewrite H2, Hskip; [done|].
         intros (r' & d' & i' & gen' & uid & _ & _ & _ & _ & Hu' & _). congruence. }
    unfold ctrd.Image, ctrd.GetSpec. rewrite Hr.
    intros HL. destruct (IH _ Hin' HL) as [H1 H2]. split; [by apply Hall|].
    intros ctr. rewrite H2, elem_of_app, list_elem_of_singleton.
    assert (hasDomain = true → d = domain) as Hd.
    { intros ->. cbn in Hf. apply bool_decide_eq_false in Hf.
      by destruct (decide (d = domain)). }
    split.
    + intros [[H|H]|(k' & Hk' & Hl)]; [by left | | ].
      * subst ctr. right. exists k. split; [by left|].
        exists r, d, i, gen, uid. by split_and!.
      * right. exists k'. split; [by right | done].
    + intros [?|(k' & Hk' & Hl)]; [by left; left|].
      apply elem_of_cons in Hk' as [->|Hk']; [|right; eauto].
      left. right.
      destruct Hl as (r' & d' & i' & gen' & uid' & Hr' & Hsp' & _ & Hg' & Hu' & ->).
      congruence.
Qed.

(** X12: What [getContainers] returns when it returns a list: with a domain
    filter, exactly the containers built from the objects of that domain
    whose generation and uid labels can be read (objects with unreadable
    labels are skipped), each carrying the filter's domain; without a
    filter, the same over all domains. *)
Theorem getContainers_lists st (filters : list FilterArg) (l : list container) :
  getContainers st filters = Ret l →
  match filters with
  | [] => ∀ ctr, ctr ∈ l ↔ ∃ k, listedAs st false (repeat x00 16) k ctr
  | [ArgBytes16 domain] =>
      (∀ ctr, ctr ∈ l ↔ ∃ k, listedAs st true domain k ctr)
      ∧ ∀ ctr, ctr ∈ l → c_domain ctr = domain
  | _ => False
  end.
Proof.
  unfold getContainers. destruct filters as [|[domain|] [|? ?]]; try discriminate.
  - intros H. apply getContainersLoop_spec in H as [_ H];
      [|intros k Hk; by apply elem_of_ctrdContainers].
    intros ctr. rewrite H. split.
    + intros [Hn|(k & _ & Hl)]; [by apply elem_of_nil in Hn | eauto].
    + intros (k & Hl). right. exists k. split; [|done].
      destruct Hl as (r & ? & ? & ? & ? & Hr & _). apply elem_of_ctrdContainers. eauto.
  - intros H. apply getContainersLoop_spec in H as [_ H];
      [|intros k Hk; by apply elem_of_ctrdContainers].
    assert (∀ ctr, ctr ∈ l ↔ ∃ k, listedAs st true domain k ctr) as Hl.
    { intros ctr. rewrite H. split.
      + intros [Hn|(k & _ & Hl)]; [by apply elem_of_nil in Hn | eauto].
      + intros (k & Hl). right. exists k. split; [|done].
        destruct Hl as (r & ? & ? & ? & ? & Hr & _). apply elem_of_ctrdContainers. eauto. }
    split; [exact Hl|]. intros ctr Hc. apply Hl in Hc as (k & Hk).
    destruct Hk as (r & d & i & gen & uid & _ & _ & Hd & _ & _ & ->).
    cbn. by apply Hd.
Qed.

Lemma getContainers_lists_witness :
  let st := Sample.backend (createLabels (Sample.ctr Sample.gen1 None))
              None Sample.started in
  ∃ k, listedAs st true Sample.dom k
         (newContainer Sample.key Sample.dom Sample.cid Sample.gen1 1000
            Sample.img Sample.spec).
Proof.
  cbv zeta.
  set (st := Sample.backend (createLabels (Sample.ctr Sample.gen1 None))
               None Sample.started).
  assert (getContainers st [ArgBytes16 Sample.dom]
          = Ret [newContainer Sample.key Sample.dom Sample.cid Sample.gen1 1000
                   Sample.img Sample.spec]) as E by (vm_compute; reflexivity).
  apply (proj1 (getContainers_lists st [ArgBytes16 Sample.dom] _ E)).
  apply list_elem_of_here.
Defined.

(** X13: One object whose ID does not split makes every listing fail: when the
    store holds such an object, whatever its domain, [getContainers] with
    at most one filter returns no list but an error or a panic. *)
Theorem getContainers_invalid_id st (filters : list FilterArg) (k : string) :
  is_Some (containers st !! k) →
  (∀ d i, splitCtrdID k ≠ Ret (d, i)) →
  getContainers st filters = Panic ∨ ∃ e, getContainers st filters = Fail e.
Proof.
  intros Hk Hbad.
  destruct (getContainers st filters) as [l|e|] eqn:E; [exfalso | eauto | by left].
  unfold getContainers in E.
  destruct filters as [|[domain|] [|? ?]]; try discriminate.
  - apply getContainersLoop_spec in E as [E _];
      [|intros k' Hk'; by apply elem_of_ctrdContainers].
    destruct (E k) as (d & i & H); [by apply elem_of_ctrdContainers|].
    by apply (Hbad d i).
  - apply getContainersLoop_spec in E as [E _];
      [|intros k' Hk'; by apply elem_of_ctrdContainers].
    destruct (E k) as (d & i & H); [by apply elem_of_ctrdContainers|].
    by apply (Hbad d i).
Qed.

Lemma getContainers_invalid_id_witness :
  let st := {| containers := {[ "abc" := {| ctrLabels := ∅; ctrImage := Sample.img;
                                            ctrSpec := Sample.spec |} ]};
               tasks := ∅; snapshots := []; active := ∅;
               startError := Sample.started |} in
  getContainers st [ArgBytes16 Sample.dom] = Panic
  ∨ ∃ e, getContainers st [ArgBytes16 Sample.dom] = Fail e.
Proof.
  cbv zeta. apply (getContainers_invalid_id _ _ "abc").
  - vm_compute. eauto.
  - intros d i. vm_compute. discriminate.
Defined.

Lemma ContainersLoop_spec st (domain : Bytes16) keys (acc l : list container) :
  (∀ k, k ∈ keys → is_Some (containers st !! k)) →
  ContainersLoop st domain keys acc = Ret l →
  ∀ ctr, ctr ∈ l ↔ ctr ∈ acc ∨ ∃ k, k ∈ keys ∧ listedBare st domain k ctr.
Proof.
  revert acc. induction keys as [|k keys IH]; intros acc Hin; cbn [ContainersLoop].
  - intros [= <-] ctr. split; [by left|]. intros [?|(k & Hk & _)]; [done|].
    by apply elem_of_nil in Hk.
  - assert (∀ k', k' ∈ keys → is_Some (containers st !! k')) as Hin'
      by (intros k' Hk'; apply Hin; by right).
    destruct (Hin k) as [r Hr]; [by left|].
    destruct (splitCtrdID k) as [[d i]| |] eqn:Hsp; [|discriminate..].
    case_bool_decide as Hd.
    + intros HL ctr. rewrite (IH _ Hin' HL). split.
      * intros [?|(k' & Hk' & Hl)]; [by left|]. right. exists k'. split; [by right|done].
      * intros [?|(k' & Hk' & Hl)]; [by left|].
        apply elem_of_cons in Hk' as [->|Hk']; [|right; eauto].
        destruct Hl as (r' & i' & _ & Hsp' & _). congruence.
    + assert (d = domain) as -> by (by destruct (decide (d = domain))).
      unfold ctrd.Image, ctrd.GetSpec. rewrite Hr.
      intros HL ctr. rewrite (IH _ Hin' HL), elem_of_app, list_elem_of_singleton. split.
      * intros [[H|H]|(k' & Hk' & Hl)]; [by left | | ].
        -- subst ctr. right. exists k. split; [by left|]. exists r, i. by split_and!.
        -- right. exists k'. split; [by right | done].
      * intros [?|(k' & Hk' & Hl)]; [by left; left|].
        apply elem_of_cons in Hk' as [->|Hk']; [|right; eauto].
        left. right. destruct Hl as (r' & i' & Hr' & Hsp' & ->). congruence.
Qed.

(** X14: What the method [Containers] returns when it returns a list: one value
    for every object of the domain, whether or not its labels can be read,
    and each value reports the all-zero generation and uid 0, not what the
    labels hold. *)
Theorem Containers_lists st (domain : Bytes16) (l : list container) :
  Containers st domain = Ret l →
  (∀ ctr, ctr ∈ l ↔ ∃ k, listedBare st domain k ctr)
  ∧ ∀ ctr, ctr ∈ l →
           c_domain ctr = domain
           ∧ Generation ctr = repeat x00 16
           ∧ UID ctr = 0%N.
Proof.
  unfold Containers. intros H.
  pose proof (ContainersLoop_spec _ _ _ _ _
                (λ k Hk, proj1 (elem_of_ctrdContainers st k) Hk) H) as Hl.
  assert (∀ ctr, ctr ∈ l ↔ ∃ k, listedBare st domain k ctr) as Hl'.
  { intros ctr. rewrite Hl. split.
    - intros [Hn|(k & _ & Hk)]; [by apply elem_of_nil in Hn | eauto].
    - intros (k & Hk). right. exists k. split; [|done].
      destruct Hk as (r & i & Hr & _). apply elem_of_ctrdContainers. eauto. }
  split; [exact Hl'|]. intros ctr Hc. apply Hl' in Hc as (k & r & i & _ & _ & ->).
  done.
Qed.

Lemma Containers_lists_witness :
  let st := Sample.backend ∅ None Sample.started in
  let ctr := {| c_domain := Sample.dom; c_id := Sample.cid;
                c_generation := repeat x00 16; c_uid := 0;
                c_spec := Sample.spec; c_image := Sample.img;
                c_ctrdContainer := Some Sample.key |} in
  (∃ k, listedBare st Sample.dom k ctr) ∧ getContainers st [ArgBytes16 Sample.dom] = Ret [].
Proof.
  cbv zeta.
  set (st := Sample.backend ∅ None Sample.started).
  set (ctr := {| c_domain := Sample.dom; c_id := Sample.cid;
                 c_generation := repeat x00 16; c_uid := 0;
                 c_spec := Sample.spec; c_image := Sample.img;
                 c_ctrdContainer := Some Sample.key |}).
  assert (Containers st Sample.dom = Ret [ctr]) as E by (vm_compute; reflexivity).
  split; [|vm_compute; reflexivity].
  apply (proj1 (Containers_lists st Sample.dom _ E)). apply list_elem_of_here.
Defined.

End Listing.

(** ** The runtime registry *)

Section RuntimeRegistry.

Context {T R : Type} {RT : runtime.runtimeType T R}.

Implicit Types (runtimes : option (gmap string T)) (regs : list (string * T)).

Lemma Open_registeredAs runtimes (confRun : runtime.ConfigRuntime) :
  runtime.Open runtimes confRun
  = match registeredAs runtimes (runtime.cfName confRun) with
    | Some reg => runtime.rtOpen reg confRun
    | None => Fail (NotFound "runtime" (runtime.cfName confRun))
    end.
Proof. by destruct runtimes. Qed.

Lemma Register_registeredAs runtimes (name : string) (runType : T) (n : string) :
  registeredAs (runtime.Register runtimes name runType).2 n
  = match registeredAs runtimes n with
    | Some t => Some t
    | None => if String.eqb name n then Some runType else None
    end.
Proof.
  unfold runtime.Register.
  set (m := match runtimes with None => ∅ | Some m => m end).
  assert (registeredAs runtimes n = m !! n) as ->
    by (destruct runtimes; [done | symmetry; apply lookup_empty]).
  destruct (m !! name) as [t|] eqn:Hn; cbn [snd registeredAs].
  - destruct (m !! n) eqn:Hm; [done|].
    destruct (String.eqb_spec name n) as [->|]; [congruence | done].
  - destruct (String.eqb_spec name n) as [->|Hne].
    + by rewrite lookup_insert_eq, Hn.
    + rewrite lookup_insert_ne by done. by destruct (m !! n).
Qed.

(** X15: [Register] never replaces an entry: on a name that is taken it fails
    with AlreadyExists and every name opens as before; on a free name it
    succeeds, that name then opens the registered type, and every other
    name opens as before. *)
Theorem Register_then_Open runtimes (name : string) (runType : T) :
  match registeredAs runtimes name with
  | Some _ =>
      (runtime.Register runtimes name runType).1 = Fail (AlreadyExists "runtime" name)
      ∧ ∀ confRun, runtime.Open (runtime.Register runtimes name runType).2 confRun
                   = runtime.Open runtimes confRun
  | None =>
      (runtime.Register runtimes name runType).1 = Ret tt
      ∧ (∀ confRun, runtime.cfName confRun = name →
                    runtime.Open (runtime.Register runtimes name runType).2 confRun
                    = runtime.rtOpen runType confRun)
      ∧ (∀ confRun, runtime.cfName confRun ≠ name →
                    runtime.Open (runtime.Register runtimes name runType).2 confRun
                    = runtime.Open runtimes confRun)
  end.
Proof.
  destruct (registeredAs runtimes name) as [t|] eqn:Hn.
  - split.
    + unfold runtime.Register. destruct runtimes as [m|]; [|done].
      cbn in Hn. by rewrite Hn.
    + intros confRun. rewrite !Open_registeredAs, Register_registeredAs.
      destruct (registeredAs runtimes (runtime.cfName confRun)) eqn:Hc; [done|].
      destruct (String.eqb_spec name (runtime.cfName confRun)) as [E|]; [|done].
      rewrite <- E in Hc. congruence.
  - split_and!.
    + unfold runtime.Register. destruct runtimes as [m|].
      * cbn in Hn. by rewrite Hn.
      * by rewrite lookup_empty.
    + intros confRun <-. rewrite Open_registeredAs, Register_registeredAs, Hn.
      by rewrite String.eqb_refl.
    + intros confRun Hne. rewrite !Open_registeredAs, Register_registeredAs.
      destruct (registeredAs runtimes (runtime.cfName confRun)); [done|].
      destruct (String.eqb_spec name (runtime.cfName confRun)); [congruence | done].
Qed.

Lemma registerAll_registeredAs regs runtimes (n : string) :
  registeredAs (runtime.registerAll regs runtimes) n
  = match registeredAs runtimes n with
    | Some t => Some t
    | None => firstRegistered n regs
    end.
Proof.
  revert runtimes. induction regs as [|[name t] regs IH]; intros runtimes.
  - cbn. by destruct (registeredAs runtimes n).
  - unfold runtime.registerAll in *. cbn [fold_left fst snd].
    rewrite IH, Register_registeredAs. cbn [firstRegistered].
    destruct (registeredAs runtimes n); [done|].
    by destruct (String.eqb name n).
Qed.

(** X16: After the backends have registered themselves, [Open] dispatches a
    configured name to the type that was registered first under it, and
    reports NotFound for a name nobody registered. *)
Theorem Open_after_registration regs (confRun : runtime.ConfigRuntime) :
  runtime.Open (runtime.registerAll regs None) confRun
  = match firstRegistered (runtime.cfName confRun) regs with
    | Some reg => runtime.rtOpen reg confRun
    | None => Fail (NotFound "runtime" (runtime.cfName confRun))
    end.
Proof. by rewrite Open_registeredAs, registerAll_registeredAs. Qed.

(** X17: [Runtimes] lists exactly the names that have been registered, each
    once. *)
Theorem Runtimes_after_registration regs :
  NoDup (runtime.Runtimes (runtime.registerAll regs None))
  ∧ ∀ n, n ∈ runtime.Runtimes (runtime.registerAll regs None) ↔ n ∈ regs.*1.
Proof.
  assert (∀ runtimes n, n ∈ runtime.Runtimes runtimes
                        ↔ is_Some (registeredAs (T:=T) runtimes n)) as Hin.
  { intros [m|] n; cbn.
    - rewrite list_elem_of_fmap. split.
      + intros ([k t] & -> & H). apply elem_of_map_to_list in H. eauto.
      + intros [t H]. exists (n, t). split; [done|]. by apply elem_of_map_to_list.
    - split; [by intros H%elem_of_nil | by intros [? ?]]. }
  split.
  - destruct (runtime.registerAll regs None) as [m|]; cbn; [|constructor].
    apply NoDup_fst_map_to_list.
  - intros n. rewrite Hin, registerAll_registeredAs. cbn [registeredAs].
    induction regs as [|[name t] regs IH]; cbn [firstRegistered fmap list_fmap fst].
    + split; [by intros [? ?] | by intros H%elem_of_nil].
    + rewrite elem_of_cons. destruct (String.eqb_spec name n) as [->|Hne].
      * split; [by left | eauto].
      * rewrite IH. split; [by right | by intros [?|?]].
Qed.

End RuntimeRegistry.

Example registry_sample :
  runtime.Open
    (runtime.registerAll [("containerd", "/run/a.sock"); ("containerd", "/run/b.sock")] None)
    (SampleRuntime.conf "containerd")
  = Ret ("/run/a.sock", "cne")
  ∧ runtime.Open (runtime.registerAll [("containerd", "/run/a.sock")] None)
      (SampleRuntime.conf "docker")
    = Fail (NotFound "runtime" "docker").
Proof. split; vm_compute; reflexivity. Qed.

(** ** The image handler *)

Section ImageHandler.

Lemma existsb_digest (x : Descriptor) (descs : list Descriptor) :
  existsb (fun d => String.eqb (Digest x) (Digest d)) descs
  = bool_decide (Digest x ∈ Digest <$> descs).
Proof.
  induction descs as [|d descs IH]; cbn [existsb fmap list_fmap].
  - symmetry. apply bool_decide_eq_false_2, not_elem_of_nil.
  - rewrite IH. destruct (String.eqb_spec (Digest x) (Digest d)) as [->|Hne]; cbn [orb].
    + symmetry. apply bool_decide_eq_true_2, list_elem_of_here.
    + apply bool_decide_ext. rewrite elem_of_cons. split; [by right | by intros [?|?]].
Qed.

Lemma handledDescs_snoc (calls : list Descriptor) (x : Descriptor) :
  handledDescs (calls ++ [x]) = imageHandler (handledDescs calls) x.
Proof. unfold handledDescs. by rewrite fold_left_app. Qed.

Lemma keptDescs_snoc (calls : list Descriptor) (x : Descriptor) :
  keptDescs (calls ++ [x])
  = (keptDescs calls
     ++ if negb (String.eqb (MediaType x) MediaTypeDockerSchema1Manifest)
        then [x] else [])%list.
Proof. unfold keptDescs. by rewrite List.filter_app. Qed.

(** X18: However often and in whatever order the handler is called, the slice it
    fills holds every digest once: its digests are those of the
    descriptors that are no schema-1 manifests, in the order of their first
    occurrence, and each entry is one of the descriptors it was called
    with. *)
Theorem handledDescs_dedup (calls : list Descriptor) :
  Digest <$> handledDescs calls = firstSeen (Digest <$> keptDescs calls)
  ∧ NoDup (Digest <$> handledDescs calls)
  ∧ ∀ d, d ∈ handledDescs calls →
         d ∈ calls ∧ MediaType d ≠ MediaTypeDockerSchema1Manifest.
Proof.
  assert (Digest <$> handledDescs calls = firstSeen (Digest <$> keptDescs calls)
          ∧ ∀ d, d ∈ handledDescs calls →
                 d ∈ calls ∧ MediaType d ≠ MediaTypeDockerSchema1Manifest) as [H1 H2].
  { induction calls as [|x calls [IH1 IH2]] using rev_ind.
    - split; [done|]. intros d H. by apply elem_of_nil in H.
    - rewrite handledDescs_snoc, keptDescs_snoc. unfold imageHandler.
      assert (∀ d, d ∈ handledDescs calls →
                   d ∈ (calls ++ [x])%list
                   ∧ MediaType d ≠ MediaTypeDockerSchema1Manifest)
        as IH2'.
      { intros d Hd. destruct (IH2 d Hd). split; [|done]. apply elem_of_app. by left. }
      destruct (String.eqb_spec (MediaType x) MediaTypeDockerSchema1Manifest)
        as [He|Hne]; cbn [negb].
      + by rewrite app_nil_r.
      + rewrite existsb_digest, fmap_app. cbn [fmap list_fmap].
        rewrite firstSeen_snoc, <- IH1.
        rewrite (bool_decide_ext (Digest x ∈ Digest <$> keptDescs calls)
                   (Digest x ∈ Digest <$> handledDescs calls))
          by (by rewrite IH1, firstSeen_elem).
        destruct (bool_decide (Digest x ∈ Digest <$> handledDescs calls)); cbn [negb].
        * done.
        * split; [by rewrite fmap_app|].
          intros d [Hd|Hd%list_elem_of_singleton]%elem_of_app; [by apply IH2'|].
          subst d. split; [|done]. apply elem_of_app. right. apply list_elem_of_here. }
  split_and!; [done | | done]. rewrite H1. apply firstSeen_NoDup.
Qed.

End ImageHandler.

(** ** Sizes *)

Section Sizes.

Open Scope Z_scope.

Lemma int64_id (z : Z) : - 2 ^ 63 <= z < 2 ^ 63 → int64 z = z.
Proof.
  intros H. unfold int64.
  rewrite Z.mod_small by lia. lia.
Qed.

Lemma pow1000_bounds (e : Z) : 0 <= e <= 5 → 1000 <= 1000 ^ (e + 1) <= 10 ^ 18.
Proof.
  intros H.
  assert (e = 0 ∨ e = 1 ∨ e = 2 ∨ e = 3 ∨ e = 4 ∨ e = 5) as [->|[->|[->|[->|[->| ->]]]]]
    by lia; cbn; lia.
Qed.

Lemma div_lt_inv (a b q : Z) : 0 < b → a / b < q → a < b * q.
Proof.
  intros Hb Hq. pose proof (Z.div_mod a b ltac:(lia)).
  pose proof (Z.mod_pos_bound a b Hb). nia.
Qed.

(** The loop, started on the quotient of [b] by [1000^(e+1)], ends with the
    exponent that brackets [b]. *)
Lemma siLoop_spec (b : Z) (fuel : nat) (k : nat) (e : Z) :
  0 <= e → e + Z.of_nat k <= 5 → (k <= fuel)%nat →
  1 <= b / 1000 ^ (e + 1) < 1000 ^ (Z.of_nat k + 1) →
  ∃ e', siLoop fuel (b / 1000 ^ (e + 1)) (1000 ^ (e + 1)) e = Some (1000 ^ (e' + 1), e')
        ∧ e <= e' <= 5
        ∧ 1 <= b / 1000 ^ (e' + 1) < 1000.
Proof.
  revert k e. induction fuel as [|fuel IH]; intros k e He Hk Hf Hn.
  - assert (k = 0%nat) as -> by lia. cbn [siLoop].
    change (1000 ^ (Z.of_nat 0 + 1)) with 1000 in Hn.
    rewrite (proj2 (Z.leb_gt _ _)) by lia. exists e. split_and!; [done | lia..].
  - cbn [siLoop]. destruct (Z.leb_spec 1000 (b / 1000 ^ (e + 1))) as [Hge|Hlt].
    + destruct k as [|k].
      { change (1000 ^ (Z.of_nat 0 + 1)) with 1000 in Hn. lia. }
      pose proof (pow1000_bounds e ltac:(lia)) as Hp.
      rewrite Z.quot_div_nonneg by lia.
      rewrite Z.div_div by lia.
      replace (1000 ^ (e + 1) * 1000) with (1000 ^ (e + 1 + 1))
        by (rewrite (Z.pow_add_r 1000 (e + 1) 1) by lia; lia).
      pose proof (pow1000_bounds (e + 1) ltac:(lia)) as Hp'.
      rewrite !int64_id by lia.
      destruct (IH k (e + 1)) as (e' & HL & He' & Hb); [lia | lia | lia | |].
      * split.
        -- assert (1000 ^ (e + 1 + 1) <= b); [|apply Z.div_le_lower_bound; lia].
           assert (1000 * 1000 ^ (e + 1) <= b).
           { apply Z.le_trans with (1000 ^ (e + 1) * (b / 1000 ^ (e + 1))); [nia|].
             apply Z.mul_div_le. lia. }
           rewrite (Z.pow_add_r 1000 (e + 1) 1) by lia. lia.
        -- apply Z.div_lt_upper_bound; [lia|].
           replace (1000 ^ (e + 1 + 1)) with (1000 ^ (e + 1) * 1000)
             by (rewrite (Z.pow_add_r 1000 (e + 1) 1) by lia; lia).
           assert (b < 1000 ^ (e + 1) * 1000 ^ (Z.of_nat (S k) + 1)).
           { destruct Hn as [_ Hn]. apply div_lt_inv in Hn; lia. }
           replace (Z.of_nat (S k) + 1) with (Z.of_nat k + 1 + 1) in * by lia.
           rewrite (Z.pow_add_r 1000 (Z.of_nat k + 1) 1) in * by lia. lia.
      * exists e'. split_and!; [done | lia..].
    + exists e. split_and!; [done | lia..].
Qed.

(** X19: For every [int64] size the call returns (five rounds of the loop are
    enough and the index into ["kMGTPE"] is never out of range).  Below
    1000 in absolute value the plain byte count is the absolute value; from
    1000 on the divisor is the power of 1000 that brackets the absolute
    value, at most 10^18, formed without overflow, and the letter is the
    one of that power.  The smallest [int64] has no absolute value: it is
    printed as a negative byte count. *)
Theorem sizeToSIString_units (fuel : nat) (sz : Z) :
  (5 <= fuel)%nat →
  - 2 ^ 63 <= sz < 2 ^ 63 →
  ∃ r, sizeToSIString fuel sz = Some (Ret r)
       ∧ match r with
         | PlainBytes b =>
             (Z.abs sz < 1000 ∧ b = Z.abs sz) ∨ (sz = - 2 ^ 63 ∧ b = sz)
         | Scaled s div c =>
             s = sz
             ∧ ∃ e, 0 <= e <= 5
                    ∧ div = 1000 ^ (e + 1)
                    ∧ div <= Z.abs sz < 1000 * div
                    ∧ String.get (Z.to_nat e) "kMGTPE" = Some c
         end.
Proof.
  intros Hfuel Hsz. unfold sizeToSIString.
  set (b := if sz <? 0 then int64 (- sz) else sz).
  destruct (Z.eq_dec sz (- 2 ^ 63)) as [->|Hmin].
  { exists (PlainBytes (- 2 ^ 63)). split; [reflexivity | by right]. }
  assert (b = Z.abs sz) as Hb.
  { subst b. destruct (Z.ltb_spec sz 0); [rewrite int64_id|]; lia. }
  clearbody b. subst b.
  destruct (Z.ltb_spec (Z.abs sz) 1000) as [Hlt|Hge].
  { eexists. split; [reflexivity|]. by left. }
  rewrite Z.quot_div_nonneg by lia.
  destruct (siLoop_spec (Z.abs sz) fuel 5 0) as (e & HL & He & Hb);
    [lia | lia | lia | |].
  { change (1000 ^ (0 + 1)) with 1000. change (1000 ^ (Z.of_nat 5 + 1)) with (10 ^ 18).
    split; [apply Z.div_le_lower_bound; lia | apply Z.div_lt_upper_bound; lia]. }
  change (1000 ^ (0 + 1)) with 1000 in HL. rewrite HL.
  rewrite (proj2 (Z.ltb_ge _ _)) by lia.
  assert (∃ c, String.get (Z.to_nat e) "kMGTPE" = Some c) as [c Hc].
  { assert (e = 0 ∨ e = 1 ∨ e = 2 ∨ e = 3 ∨ e = 4 ∨ e = 5)
      as [->|[->|[->|[->|[->| ->]]]]] by lia; cbn; eauto. }
  rewrite Hc. eexists. split; [reflexivity|]. split; [done|].
  exists e. pose proof (pow1000_bounds e ltac:(lia)) as Hp.
  split_and!; try done; try lia.
  - apply Z.le_trans with (1000 ^ (e + 1) * (Z.abs sz / 1000 ^ (e + 1))); [nia|].
    apply Z.mul_div_le. lia.
  - destruct Hb as [_ Hb]. apply div_lt_inv in Hb; lia.
Qed.

Lemma sizeToSIString_units_witness :
  ∃ r, sizeToSIString 5 (- 1536000) = Some (Ret r)
       ∧ match r with
         | PlainBytes b =>
             (Z.abs (- 1536000) < 1000 ∧ b = Z.abs (- 1536000))
             ∨ (- 1536000 = - 2 ^ 63 ∧ b = - 1536000)
         | Scaled s div c =>
             s = - 1536000
             ∧ ∃ e, 0 <= e <= 5
                    ∧ div = 1000 ^ (e + 1)
                    ∧ div <= Z.abs (- 1536000) < 1000 * div
                    ∧ String.get (Z.to_nat e) "kMGTPE" = Some c
         end.
Proof. apply sizeToSIString_units; [lia | lia]. Defined.

Example sizeToSIString_samples :
  sizeToSIString 5 (- 1536000) = Some (Ret (Scaled (- 1536000) 1000000 "M"))
  ∧ sizeToSIString 5 (- 999) = Some (Ret (PlainBytes 999))
  ∧ sizeToSIString 5 (- 2 ^ 63) = Some (Ret (PlainBytes (- 2 ^ 63)))
  ∧ sizeToSIString 5 (2 ^ 63 - 1) = Some (Ret (Scaled (2 ^ 63 - 1) (10 ^ 18) "E")).
Proof. split_and!; vm_compute; reflexivity. Qed.

End Sizes.

(** ** When the progress displays can print *)

Section ProgressRendering.

Implicit Types (cached : gmap string ProgressStatus) (refs : list string).

Lemma prefix_length (a s : string) :
  String.prefix a s = true → (String.length a <= String.length s)%nat.
Proof.
  revert s. induction a as [|c a IH]; intros s H; [cbn; lia|].
  destruct s as [|c' s]; [discriminate|]. cbn in H |- *.
  destruct (ascii_dec c c'); [|discriminate]. apply IH in H. lia.
Qed.

Lemma Index_range (s sub : string) :
  (Go.Index s sub = -1 ∨ (0 <= Go.Index s sub ∧ Go.Index s sub + Go.len sub <= Go.len s))%Z.
Proof.
  unfold Go.len. induction s as [|c s IH]; cbn [Go.Index].
  - destruct (String.prefix sub "") eqn:E; [|by left].
    right. apply prefix_length in E. lia.
  - destruct (String.prefix sub (String c s)) eqn:E.
    + right. apply prefix_length in E. lia.
    + destruct IH as [->|IH]; [by left|].
      rewrite (proj2 (Z.ltb_ge _ _)) by lia. right. cbn [String.length]. lia.
Qed.

Lemma drop_length (n : nat) (s : string) :
  String.length (Go.drop n s) = (String.length s - n)%nat.
Proof. revert s. induction n as [|n IH]; intros [|c s]; cbn; auto. Qed.

(** The reference after the cut at the colon, as both displays form it. *)
Lemma stripped_slice (ref : string) :
  (if (0 <? Go.Index ref ":")%Z then Go.slice_from ref (Go.Index ref ":" + 1)
   else Some ref) = Some (strippedRef ref).
Proof.
  unfold strippedRef, Go.slice_from.
  destruct (Z.ltb_spec 0 (Go.Index ref ":")) as [H|H]; [|done].
  destruct (Index_range ref ":") as [E|[_ Hr]]; [lia|].
  change (Go.len ":") with 1%Z in Hr.
  by rewrite (proj2 (Z.leb_le 0 _)), (proj2 (Z.leb_le _ _) Hr) by lia.
Qed.

Lemma renderLine_displayable cached (ticks : Z) (ref : string) :
  renderLine cached ticks ref = None ↔ displayable ref = false.
Proof.
  unfold renderLine, displayable. rewrite stripped_slice. unfold Go.slice_to.
  change (0 <=? 12)%Z with true. cbn [andb].
  destruct (12 <=? Go.len (strippedRef ref))%Z; split; congruence.
Qed.

Lemma renderLines_displayable cached (ticks : Z) refs :
  renderLines cached ticks refs = None ↔ ∃ r, r ∈ refs ∧ displayable r = false.
Proof.
  induction refs as [|ref refs IH]; cbn [renderLines].
  - split; [discriminate | by intros (r & H%elem_of_nil & _)].
  - destruct (renderLine cached ticks ref) as [l|] eqn:E.
    + assert (displayable ref = true) as Hd.
      { destruct (displayable ref) eqn:D; [done|].
        apply (renderLine_displayable cached ticks) in D. congruence. }
      destruct (renderLines cached ticks refs) as [ls|].
      * split; [discriminate|]. intros (r & [->|Hr]%elem_of_cons & Hf); [congruence|].
        assert (Some ls = @None (list Line)) as H by (apply IH; eauto). discriminate.
      * split; [|done]. intros _. destruct (proj1 IH eq_refl) as (r & Hr & Hf).
        exists r. split; [by right | done].
    + split; [|done]. intros _. exists ref. split; [by left|].
      by apply (renderLine_displayable cached ticks).
Qed.

Lemma stream_refs (stream : list ProgressStatus) (acc : gmap string ProgressStatus * list string)
    (r : string) :
  (∀ r', r' ∈ acc.2 ↔ is_Some (acc.1 !! r')) →
  r ∈ (fold_left recordStatus stream acc).2
  ↔ r ∈ acc.2 ∨ r ∈ Reference <$> stream.
Proof.
  revert acc. induction stream as [|s stream IH]; intros [cached refs] Hinv; cbn [fold_left].
  - split; [by left | by intros [?|?%elem_of_nil]].
  - rewrite IH.
    + unfold recordStatus. cbn [fst snd fmap list_fmap]. rewrite elem_of_cons.
      destruct (cached !! Reference s) as [x|] eqn:E.
      * split; [intros [?|?]; auto | intros [?|[->|?]]; auto].
        left. apply Hinv. cbn. eauto.
      * rewrite elem_of_app, list_elem_of_singleton. tauto.
    + intros r'. unfold recordStatus. cbn [fst snd].
      destruct (decide (Reference s = r')) as [<-|Hne].
      * rewrite lookup_insert_eq. split; [eauto|]. intros _.
        destruct (cached !! Reference s) as [x|] eqn:E.
        -- apply Hinv. cbn. eauto.
        -- apply elem_of_app. right. apply list_elem_of_here.
      * rewrite lookup_insert_ne by done. rewrite <- (Hinv r'). cbn [fst snd].
        destruct (cached !! Reference s); [done|].
        rewrite elem_of_app, list_elem_of_singleton.
        split; [by intros [?|?] | intros ?; by left].
Qed.

Lemma recordStatus_inv (stream : list ProgressStatus)
    (acc : gmap string ProgressStatus * list string) :
  (∀ r', r' ∈ acc.2 ↔ is_Some (acc.1 !! r')) →
  ∀ r', r' ∈ (fold_left recordStatus stream acc).2
        ↔ is_Some ((fold_left recordStatus stream acc).1 !! r').
Proof.
  revert acc. induction stream as [|s stream IH]; intros [cached refs] Hinv; [done|].
  cbn [fold_left]. apply IH. intros r'. unfold recordStatus. cbn [fst snd].
  destruct (decide (Reference s = r')) as [<-|Hne].
  - rewrite lookup_insert_eq. split; [eauto|]. intros _.
    destruct (cached !! Reference s) as [x|] eqn:E.
    + apply Hinv. cbn. eauto.
    + apply elem_of_app. right. apply list_elem_of_here.
  - rewrite lookup_insert_ne by done. rewrite <- (Hinv r'). cbn [fst snd].
    destruct (cached !! Reference s); [done|].
    rewrite elem_of_app, list_elem_of_singleton.
        split; [by intros [?|?] | intros ?; by left].
Qed.

Lemma showLoop_panics (d : Display) (progress : list (list ProgressStatus)) :
  (∀ r, r ∈ statRefs d ↔ is_Some (statCached d !! r)) →
  (∀ r, r ∈ statRefs d → displayable r = true) →
  (showLoop d progress = Panic
   ↔ ∃ s, s ∈ concat progress ∧ displayable (Reference s) = false)
  ∧ ∀ e, showLoop d progress ≠ Fail e.
Proof.
  revert d. induction progress as [|b progress IH]; intros d Hinv Hok; cbn [showLoop concat].
  - split; [|done]. split; [discriminate | by intros (s & H%elem_of_nil & _)].
  - unfold showBatch.
    pose proof (λ r, stream_refs b (statCached d, statRefs d) r Hinv) as Hrefs.
    pose proof (recordStatus_inv b (statCached d, statRefs d) Hinv) as Hinv'.
    destruct (fold_left recordStatus b (statCached d, statRefs d)) as [cached refs].
    cbn [fst snd] in Hrefs, Hinv'.
    destruct (renderLines cached (ticks d) refs) as [out|] eqn:E.
    + assert (∀ r, r ∈ refs → displayable r = true) as Hok'.
      { intros r Hr. destruct (displayable r) eqn:D; [done|].
        assert (renderLines cached (ticks d) refs = None) as H
          by (apply renderLines_displayable; eauto). congruence. }
      set (d1 := {| lines := _; ticks := _; statCached := cached; statRefs := refs |}).
      destruct (IH d1 Hinv' Hok') as [IH1 IH2].
      destruct (showLoop d1 progress) as [[d2 outs]|e|] eqn:E2.
      * split; [|done]. split; [discriminate|].
        intros (s & [Hs|Hs]%elem_of_app & Hf).
        -- assert (displayable (Reference s) = true); [|congruence].
           apply Hok', Hrefs. right. by apply list_elem_of_fmap_2.
        -- assert (Ret (d2, outs) = @Panic (Display * list (list Line))) as H
             by (apply IH1; eauto).
           discriminate.
      * by destruct (IH2 e).
      * split; [|done]. split; [|done]. intros _.
        destruct (proj1 IH1 eq_refl) as (s & Hs & Hf).
        exists s. split; [|done]. apply elem_of_app. by right.
    + split; [|done]. split; [|done]. intros _.
      apply renderLines_displayable in E as (r & Hr & Hf).
      apply Hrefs in Hr as [Hr|(s & -> & Hs)%list_elem_of_fmap].
      * rewrite (Hok r Hr) in Hf. discriminate.
      * exists s. split; [|done]. apply elem_of_app. by left.
Qed.

(** X20: [showImageProgress] panics exactly when one of the statuses it receives
    has a reference of which fewer than 12 bytes are left after the cut at
    the first colon; otherwise it gets through the whole sequence.  It
    never returns an error. *)
Theorem showImageProgress_panics (progress : list (list ProgressStatus)) :
  (showImageProgress progress = Panic
   ↔ ∃ s, s ∈ concat progress ∧ displayable (Reference s) = false)
  ∧ ((∀ s, s ∈ concat progress → displayable (Reference s) = true) →
     ∃ d outs, showImageProgress progress = Ret (d, outs)).
Proof.
  unfold showImageProgress.
  set (d0 := {| lines := 0; ticks := 0; statCached := ∅; statRefs := [] |}).
  destruct (showLoop_panics d0 progress) as [H1 H2].
  { intros r. cbn. split; [by intros ?%elem_of_nil|]. intros [? H].
    by rewrite lookup_empty in H. }
  { intros r H. by apply elem_of_nil in H. }
  split; [exact H1|]. intros Hall.
  destruct (showLoop d0 progress) as [[d outs]|e|] eqn:E; [eauto | by destruct (H2 e) |].
  destruct (proj1 H1 eq_refl) as (s & Hs & Hf). rewrite (Hall s Hs) in Hf. discriminate.
Qed.

Lemma take_length (n : nat) (s : string) :
  String.length (Go.take n s) = Nat.min n (String.length s).
Proof. revert s. induction n as [|n IH]; intros [|c s]; cbn; auto. Qed.

Lemma renderBuildLine_some cached (ref : string) :
  ∃ l, renderBuildLine cached ref = Some l
       ∧ buildRef l = Go.take 12 (strippedRef ref).
Proof.
  unfold renderBuildLine. rewrite stripped_slice. unfold Go.slice_to.
  set (r := strippedRef ref).
  destruct (Z.ltb_spec 12 (Go.len r)) as [H|H].
  - change (0 <=? 12)%Z with true. rewrite (proj2 (Z.leb_le 12 _)) by lia.
    eexists. split; [reflexivity|]. done.
  - unfold Go.len in *. rewrite (proj2 (Z.leb_le 0 _)), Z.leb_refl by lia.
    eexists. split; [reflexivity|]. cbn [buildRef andb]. rewrite Nat2Z.id.
    clear -H. assert (String.length r <= 12)%nat as H' by lia. clear H.
    revert H'. generalize 12%nat. induction r as [|c r IH]; intros [|n] Hn; cbn in *;
      try done; try lia. f_equal. apply IH. lia.
Qed.

Lemma renderBuildLines_some cached refs :
  ∃ ls, renderBuildLines cached refs = Some ls
        ∧ ∀ l, l ∈ ls → (String.length (buildRef l) <= 12)%nat.
Proof.
  induction refs as [|ref refs (ls & E & IH)]; cbn [renderBuildLines].
  - exists []. split; [done|]. by intros l H%elem_of_nil.
  - rewrite E. destruct (renderBuildLine_some cached ref) as (l & -> & Hl).
    exists (l :: ls). split; [done|]. intros l' [->|H]%elem_of_cons; [|by apply IH].
    rewrite Hl, take_length. lia.
Qed.

Lemma showBuildLoop_returns (d : Display) (progress : list (list ProgressStatus)) :
  ∃ d' outs,
    showBuildLoop d progress = Ret (d', outs)
    ∧ (statCached d', statRefs d')
      = fold_left recordStatus (concat progress) (statCached d, statRefs d)
    ∧ length outs = length progress
    ∧ ∀ out l, out ∈ outs → l ∈ out → (String.length (buildRef l) <= 12)%nat.
Proof.
  revert d. induction progress as [|b progress IH]; intros d; cbn [showBuildLoop concat].
  - exists d, []. split_and!; [done..|]. by intros out l H%elem_of_nil.
  - unfold showBuildBatch. rewrite fold_left_app.
    destruct (fold_left recordStatus b (statCached d, statRefs d)) as [cached refs].
    cbv beta iota zeta.
    destruct (renderBuildLines_some cached refs) as (out & -> & Hout).
    set (d1 := {| lines := _; ticks := _; statCached := cached; statRefs := refs |}).
    destruct (IH d1) as (d2 & outs & -> & Hst & Hlen & Houts).
    exists d2, (out :: outs). split_and!; [done | done | by cbn; rewrite Hlen |].
    intros out' l [->|H]%elem_of_cons; [apply Hout | by apply Houts].
Qed.

(** X21: [showBuildProgress] gets through every sequence of batches, however
    short the references are (the reference is cut to at most 12 bytes): it
    writes one frame per batch with no reference longer than 12 bytes, and
    ends with the distinct references in the order of their first
    occurrence, each mapped to the status received last for it. *)
Theorem showBuildProgress_returns (progress : list (list ProgressStatus)) :
  ∃ d outs,
    showBuildProgress progress = Ret (d, outs)
    ∧ statRefs d = firstSeen (Reference <$> concat progress)
    ∧ (∀ r, statCached d !! r = latestStatus (concat progress) r)
    ∧ length outs = length progress
    ∧ ∀ out l, out ∈ outs → l ∈ out → (String.length (buildRef l) <= 12)%nat.
Proof.
  unfold showBuildProgress.
  destruct (showBuildLoop_returns
              {| lines := 0; ticks := 0; statCached := ∅; statRefs := [] |} progress)
    as (d & outs & -> & Hst & Hlen & Houts).
  exists d, outs. cbn [statCached statRefs] in Hst.
  pose proof (recordStatus_stream (concat progress)) as Hinv.
  cbv zeta in Hinv. rewrite <- Hst in Hinv. cbn [fst snd] in Hinv.
  destruct Hinv as [Hrefs Hcache]. by split_and!.
Qed.

Example showBuildProgress_short_reference :
  ∃ d, showBuildProgress [[Sample.status "layer-1" "running" 0 0]]
       = Ret (d, [[{| buildRef := "layer-1"; buildText := BuildDetails "" |}]]).
Proof. eexists. vm_compute. reflexivity. Qed.

End ProgressRendering.

(** ** The process user *)

Section ProcessUser.

Import config.

(** X22: Whenever [getProcessUser] returns a user, the group name is the user
    name (the name of the group that was looked up is never used), the
    build ids are the ids, both ids are 32-bit values, the shell is not
    empty and the suid flag compares the real with the effective uid of the
    process, also under sudo. *)
Theorem getProcessUser_fields (env : Env) (u : User) :
  getProcessUser env = Got u →
  Groupname u = Username u
  ∧ BuildUID u = UID u
  ∧ BuildGID u = GID u
  ∧ (0 <= UID u < 2 ^ 32)%Z
  ∧ (0 <= GID u < 2 ^ 32)%Z
  ∧ Shell u ≠ EmptyString
  ∧ IsSuid u = negb (Z.eqb (Getuid env) (Geteuid env))
  ∧ IsSudo u = negb (String.eqb (Getenv env "SUDO_USER") "").
Proof.
  unfold getProcessUser. destruct (Current env) as [usr|]; [|discriminate].
  destruct (negb (String.eqb (Getenv env "SUDO_USER") "")) eqn:Hs;
    cbv beta iota zeta;
    (match goal with
     | |- context [LookupGroupId env ?g] => destruct (LookupGroupId env g)
     end; [|discriminate]);
    intros [= <-]; cbn [Groupname Username BuildUID UID BuildGID GID Shell IsSuid IsSudo];
    (split_and!; try done; try (unfold uint32; apply Z.mod_pos_bound; lia));
    destruct (String.eqb_spec (Getenv env "SHELL") ""); done.
Qed.

Lemma getProcessUser_fields_witness :
  Groupname {| Username := "alice"; Groupname := "alice"; Shell := defaultShell;
               IsSudo := false; IsSuid := false; UID := 1000; GID := 1000;
               HomeDir := "/home/alice"; Pwd := "/home/alice";
               BuildUID := 1000; BuildGID := 1000 |} = "alice".
Proof.
  exact (proj1 (getProcessUser_fields (sampleEnv "" "" true) _ eq_refl)).
Defined.



Lemma Atoi_empty : Atoi EmptyString = 0%Z.
Proof. reflexivity. Qed.

(** X24: Under sudo the ids come from SUDO_UID and SUDO_GID, not from the
    process: with SUDO_USER set and SUDO_UID unset the user returned is the
    sudo user with uid 0, whatever the uid of the process is. *)
Theorem getProcessUser_sudo_without_uid (env : Env) (u : User) :
  Getenv env "SUDO_USER" ≠ EmptyString →
  Getenv env "SUDO_UID" = EmptyString →
  getProcessUser env = Got u →
  Username u = Getenv env "SUDO_USER"
  ∧ IsSudo u = true
  ∧ UID u = 0%Z
  ∧ GID u = uint32 (Atoi (Getenv env "SUDO_GID")).
Proof.
  intros Hs Hu. unfold getProcessUser. destruct (Current env) as [usr|]; [|discriminate].
  rewrite (proj2 (String.eqb_neq _ _) Hs), Hu. cbv beta iota zeta. cbn [negb].
  destruct (LookupGroupId env _); [|discriminate].
  by intros [= <-].
Qed.

Lemma getProcessUser_sudo_without_uid_witness :
  ∃ u, getProcessUser (sampleEnv "bob" "" true) = Got u
       ∧ Username u = "bob" ∧ IsSudo u = true ∧ UID u = 0%Z.
Proof.
  eexists. split; [reflexivity|].
  destruct (getProcessUser_sudo_without_uid (sampleEnv "bob" "" true) _
              ltac:(discriminate) eq_refl eq_refl) as (H1 & H2 & H3 & _).
  split; [exact H1|]. split; [exact H2 | exact H3].
Defined.

End ProcessUser.

(** ** Splitting command lines *)

Section Trimming.

Import strings.

Implicit Types (l q r : list ascii) (seqs : list (list ascii)).

Lemma dropPrefix_Some q l r : dropPrefix q l = Some r ↔ l = (q ++ r)%list.
Proof.
  revert l. induction q as [|a q IH]; intros l; cbn.
  - split; congruence.
  - destruct l as [|b l]; [split; discriminate|].
    destruct (Ascii.eqb_spec a b) as [->|Hne].
    + rewrite IH. split; congruence.
    + split; [discriminate | congruence].
Qed.

Lemma stripPrefix_Some seqs l r :
  stripPrefix seqs l = Some r → ∃ q, q ∈ seqs ∧ l = (q ++ r)%list.
Proof.
  induction seqs as [|q seqs IH]; cbn; [discriminate|].
  destruct (dropPrefix q l) as [r'|] eqn:E.
  - intros [= ->]. exists q. split; [by left | by apply dropPrefix_Some].
  - intros H. destruct (IH H) as (q' & ? & ?). exists q'. split; [by right | done].
Qed.

Lemma stripPrefix_None seqs l :
  stripPrefix seqs l = None ↔ ∀ q r, q ∈ seqs → l ≠ (q ++ r)%list.
Proof.
  induction seqs as [|q seqs IH]; cbn.
  - split; [|done]. intros _ q r H. by apply elem_of_nil in H.
  - destruct (dropPrefix q l) as [r'|] eqn:E.
    + split; [discriminate|]. intros H. apply dropPrefix_Some in E.
      exfalso. apply (H q r'); [by left | done].
    + rewrite IH. split.
      * intros H q' r [->|Hq]%elem_of_cons; [|by apply H].
        intros Hl. apply dropPrefix_Some in Hl. congruence.
      * intros H q' r Hq. apply H. by right.
Qed.

Lemma trim_suffix seqs (fuel : nat) l : ∃ p, l = (p ++ trim seqs fuel l)%list.
Proof.
  revert l. induction fuel as [|fuel IH]; intros l; cbn; [by exists []|].
  destruct (stripPrefix seqs l) as [r|] eqn:E; [|by exists []].
  apply stripPrefix_Some in E as (q & _ & ->). destruct (IH r) as [p Hp].
  exists (q ++ p)%list. rewrite <- app_assoc. by rewrite <- Hp.
Qed.

Lemma trim_clean seqs (fuel : nat) l :
  (∀ q, q ∈ seqs → q ≠ []) → length l <= fuel →
  stripPrefix seqs (trim seqs fuel l) = None.
Proof.
  intros Hne. revert l. induction fuel as [|fuel IH]; intros l Hlen; cbn.
  - destruct l; [|cbn in Hlen; lia]. apply stripPrefix_None. intros q r Hq H.
    symmetry in H. apply app_eq_nil in H as [-> _]. by apply (Hne []).
  - destruct (stripPrefix seqs l) as [r|] eqn:E; [|done].
    apply IH. apply stripPrefix_Some in E as (q & Hq & ->).
    rewrite length_app in Hlen. specialize (Hne q Hq). destruct q; [done|].
    cbn in Hlen. lia.
Qed.

Lemma trim_stable seqs (fuel : nat) l :
  stripPrefix seqs l = None → trim seqs fuel l = l.
Proof. intros H. destruct fuel; cbn; [done | by rewrite H]. Qed.

Lemma clean_prefix seqs l r :
  stripPrefix seqs (l ++ r) = None → stripPrefix seqs l = None.
Proof.
  rewrite !stripPrefix_None. intros H q x Hq ->. apply (H q (x ++ r)%list Hq).
  by rewrite app_assoc.
Qed.

(** A non-empty text that is trimmed away entirely ends, as it is read here
    from its front, with one of the sequences. *)
Lemma trim_nil seqs (fuel : nat) l :
  trim seqs fuel l = [] → l ≠ [] → ∃ x q, q ∈ seqs ∧ l = (x ++ q)%list.
Proof.
  revert l. induction fuel as [|fuel IH]; intros l; cbn; [congruence|].
  destruct (stripPrefix seqs l) as [r|] eqn:E; [|congruence].
  apply stripPrefix_Some in E as (q & Hq & ->). intros Ht _.
  destruct r as [|a r].
  - exists [], q. by rewrite app_nil_r.
  - destruct (IH _ Ht) as (x & q' & Hq' & Hr); [done|].
    exists (q ++ x)%list, q'. split; [done|]. by rewrite Hr, app_assoc.
Qed.

Lemma spaces_nonempty q : q ∈ spaces → q ≠ [].
Proof.
  intros H ->. unfold spaces in H. apply list_elem_of_fmap in H as (codes & Hc & Hin).
  destruct codes; [|discriminate].
  repeat (apply elem_of_cons in Hin as [Hin|Hin]; [discriminate|]).
  by apply elem_of_nil in Hin.
Qed.

Lemma rev_spaces_nonempty q : q ∈ map (@rev ascii) spaces → q ≠ [].
Proof.
  intros (q' & -> & Hq')%list_elem_of_fmap H.
  apply (spaces_nonempty q' Hq'). destruct q'; [done|].
  cbn in H. by destruct (rev q').
Qed.

Lemma trimLeft_clean l : stripPrefix spaces (trimLeft l) = None.
Proof. apply trim_clean; [apply spaces_nonempty | done]. Qed.

Lemma trimRight_prefix l : ∃ x, l = (trimRight l ++ x)%list.
Proof.
  unfold trimRight.
  destruct (trim_suffix (map (@rev ascii) spaces) (length l) (rev l)) as [p Hp].
  exists (rev p). rewrite <- rev_app_distr, <- Hp. by rewrite rev_involutive.
Qed.

Lemma trimRight_clean l :
  stripPrefix (map (@rev ascii) spaces) (rev (trimRight l)) = None.
Proof.
  unfold trimRight. rewrite rev_involutive.
  apply trim_clean; [apply rev_spaces_nonempty | by rewrite length_rev].
Qed.

Lemma trimRight_stable l :
  stripPrefix (map (@rev ascii) spaces) (rev l) = None → trimRight l = l.
Proof.
  intros H. unfold trimRight. rewrite trim_stable by done. apply rev_involutive.
Qed.

Lemma trimmedL_trim l : trimmedL (trimRight (trimLeft l)).
Proof.
  split; [|apply trimRight_clean].
  destruct (trimRight_prefix (trimLeft l)) as [x Hx].
  apply (clean_prefix _ _ x). rewrite <- Hx. apply trimLeft_clean.
Qed.

Lemma trimmedL_stable l : trimmedL l → trimRight (trimLeft l) = l.
Proof.
  intros [H1 H2]. unfold trimLeft. rewrite trim_stable by done.
  by apply trimRight_stable.
Qed.

(** A non-empty beginning of a trimmed text does not trim to nothing. *)
Lemma trimmedL_prefix_nonempty l r :
  stripPrefix spaces (l ++ r) = None → l ≠ [] → trimRight (trimLeft l) ≠ [].
Proof.
  intros Hc Hne. apply clean_prefix in Hc.
  unfold trimLeft. rewrite trim_stable by done.
  unfold trimRight. intros H.
  assert (trim (map (@rev ascii) spaces) (length l) (rev l) = []) as Ht.
  { destruct (trim _ _ _); [done|]. cbn in H. by destruct (rev _). }
  destruct (trim_nil _ _ _ Ht) as (x & q & Hq & Hl).
  { intros E. apply Hne. by rewrite <- (rev_involutive l), E. }
  apply list_elem_of_fmap in Hq as (q' & -> & Hq').
  assert (l = (q' ++ rev x)%list) as Hl'.
  { rewrite <- (rev_involutive l), Hl, rev_app_distr. by rewrite rev_involutive. }
  by apply (proj1 (stripPrefix_None _ _) Hc q' (rev x) Hq').
Qed.

End Trimming.

Section ScanLine.

Import strings.

Lemma string_of_list_app (a b : list ascii) :
  string_of_list_ascii (a ++ b) = string_of_list_ascii a ++ string_of_list_ascii b.
Proof. induction a as [|c a IH]; simpl; [done | by rewrite IH]. Qed.

Lemma TrimSpace_within (s : string) : ∃ p q, s = p ++ TrimSpace s ++ q.
Proof.
  unfold TrimSpace. set (l := list_ascii_of_string s).
  destruct (trim_suffix spaces (length l) l) as [p Hp]. fold (trimLeft l) in Hp.
  destruct (trimRight_prefix (trimLeft l)) as [x Hx].
  exists (string_of_list_ascii p), (string_of_list_ascii x).
  rewrite <- !string_of_list_app, <- Hx, <- Hp.
  symmetry. apply string_of_list_ascii_of_string.
Qed.

Lemma TrimSpace_trimmedL (s : string) :
  trimmedL (list_ascii_of_string (TrimSpace s)).
Proof.
  unfold TrimSpace. rewrite list_ascii_of_string_of_list_ascii. apply trimmedL_trim.
Qed.

Lemma TrimSpace_idem (s : string) : TrimSpace (TrimSpace s) = TrimSpace s.
Proof.
  unfold TrimSpace at 1. rewrite (trimmedL_stable _ (TrimSpace_trimmedL s)).
  apply string_of_list_ascii_of_string.
Qed.

Lemma TrimSpace_length (s : string) :
  String.length (TrimSpace s) <= String.length s.
Proof.
  destruct (TrimSpace_within s) as (p & q & H).
  rewrite H at 2. rewrite !string_length_app. lia.
Qed.

Lemma TrimSpace_prefix_nonempty (s b x : string) :
  TrimSpace s = s → s = b ++ x → b ≠ "" → TrimSpace b ≠ "".
Proof.
  intros Hs -> Hb. pose proof (TrimSpace_trimmedL (b ++ x)) as [Hc _].
  rewrite Hs in Hc.
  assert (list_ascii_of_string (b ++ x)
          = (list_ascii_of_string b ++ list_ascii_of_string x)%list) as E.
  { clear. induction b as [|c b IH]; [done|].
    change (String c b ++ x) with (String c (b ++ x)).
    cbn [list_ascii_of_string]. rewrite IH. done. }
  rewrite E in Hc. unfold TrimSpace. intros H.
  apply (trimmedL_prefix_nonempty _ _ Hc).
  - by destruct b.
  - by destruct (trimRight _).
Qed.

Lemma noComma_app (a b : string) : noComma (a ++ b) ↔ noComma a ∧ noComma b.
Proof. induction a as [|c a IH]; simpl; [tauto | rewrite IH; tauto]. Qed.

Lemma TrimSpace_noComma (s : string) : noComma s → noComma (TrimSpace s).
Proof.
  destruct (TrimSpace_within s) as (p & q & H). rewrite H at 1.
  rewrite !noComma_app. tauto.
Qed.

Lemma Index_comma (s t : string) :
  noComma s → Go.Index (s ++ String "," t) "," = Go.len s.
Proof.
  unfold Go.len. induction s as [|c s IH]; intros Hs.
  - simpl. by destruct t.
  - destruct Hs as [Hc Hs]. specialize (IH Hs).
    change (String c s ++ String "," t) with (String c (s ++ String "," t)).
    cbn [Go.Index String.prefix].
    destruct (ascii_dec "," c) as [E|_]; [congruence|].
    rewrite IH. cbn [String.length].
    destruct (Z.ltb_spec (Z.of_nat (String.length s)) 0); lia.
Qed.

Lemma Index_noComma (s : string) : noComma s → Go.Index s "," = (-1)%Z.
Proof.
  induction s as [|c s IH]; [done|]. intros [Hc Hs].
  cbn [Go.Index String.prefix].
  destruct (ascii_dec "," c) as [E|_]; [congruence|]. by rewrite IH.
Qed.

Lemma comma_split (s : string) :
  noComma s ∨ ∃ l r, s = l ++ String "," r ∧ noComma l.
Proof.
  induction s as [|c s IH]; [by left|].
  destruct (ascii_dec c ",") as [->|Hc].
  - right. by exists EmptyString, s.
  - destruct IH as [Hs|(l & r & -> & Hl)]; [by left|].
    right. by exists (String c l), r.
Qed.

Lemma scanLoop_commands (fuel : nat) (line : string) (acc : list string) :
  String.length line < fuel → TrimSpace line = line →
  (∀ c, c ∈ acc → noComma c ∧ TrimSpace c = c ∧ c ≠ "") →
  ∃ cmds, scanLoop fuel line acc = Lines cmds ∧ cmds ≠ [] ∧ commands cmds.
Proof.
  revert line acc. induction fuel as [|fuel IH]; intros line acc Hlen Ht Hacc; [lia|].
  cbn [scanLoop]. destruct (comma_split line) as [Hn|(l & r & -> & Hl)].
  - rewrite (Index_noComma _ Hn). cbn. exists (acc ++ [line])%list.
    split; [done|]. split; [by destruct acc|]. split.
    + intros c [Hc|Hc]%elem_of_app.
      * destruct (Hacc c Hc) as (? & ? & ?). done.
      * apply list_elem_of_singleton in Hc as ->. done.
    + rewrite removelast_last. intros c Hc. by apply Hacc.
  - rewrite (Index_comma l r Hl).
    assert (negb (Go.len l =? -1)%Z = true) as ->.
    { unfold Go.len. destruct (Z.eqb_spec (Z.of_nat (String.length l)) (-1)); [lia | done]. }
    cbv zeta. unfold Go.slice_to, Go.slice_from, Go.len.
    rewrite string_length_app. cbn [String.length].
    assert ((0 <=? Z.of_nat (String.length l))%Z
            && (Z.of_nat (String.length l)
                <=? Z.of_nat (String.length l + S (String.length r)))%Z = true) as ->
      by (apply andb_true_intro; split; apply Z.leb_le; lia).
    assert ((0 <=? Z.of_nat (String.length l) + 1)%Z
            && (Z.of_nat (String.length l) + 1
                <=? Z.of_nat (String.length l + S (String.length r)))%Z = true) as ->
      by (apply andb_true_intro; split; apply Z.leb_le; lia).
    rewrite Nat2Z.id.
    replace (Z.to_nat (Z.of_nat (String.length l) + 1)) with (S (String.length l)) by lia.
    rewrite take_app, drop_app.
    rewrite string_length_app in Hlen. cbn [String.length] in Hlen.
    pose proof (TrimSpace_length r) as Hr.
    apply IH; [lia | apply TrimSpace_idem |].
    destruct (Z.ltb_spec 0 (Z.of_nat (String.length l))) as [Hpos|_]; [|done].
    intros c [Hc|Hc]%elem_of_app; [by apply Hacc|].
    apply list_elem_of_singleton in Hc as ->.
    split; [by apply TrimSpace_noComma|]. split; [apply TrimSpace_idem|].
    apply (TrimSpace_prefix_nonempty _ l (String "," r) Ht eq_refl).
    destruct l; [cbn in Hpos; lia | done].
Qed.

(** X26: [scanLine] returns for every line: it neither runs out of range
    when slicing nor loops for ever.  The commands it returns are trimmed of
    white space and free of commas; only the last of them may be empty;
    and no command at all is returned exactly when the line holds nothing
    but white space. *)
Theorem scanLine_commands (line : string) :
  ∃ cmds, scanLine line = Lines cmds ∧ commands cmds ∧
          (cmds = [] ↔ TrimSpace line = "").
Proof.
  unfold scanLine. cbv zeta. unfold Go.len.
  destruct (Z.eqb_spec (Z.of_nat (String.length (TrimSpace line))) 0) as [E|E].
  - exists []. split; [done|]. split.
    + split; intros c Hc; by apply elem_of_nil in Hc.
    + split; [|done]. intros _. by destruct (TrimSpace line).
  - destruct (scanLoop_commands (S (String.length (TrimSpace line)))
                (TrimSpace line) []) as (cmds & -> & Hne & Hc).
    + lia.
    + apply TrimSpace_idem.
    + intros c Hc. by apply elem_of_nil in Hc.
    + exists cmds. split; [done|]. split; [done|]. split; [done|].
      intros H. rewrite H in E. done.
Qed.

End ScanLine.
